(** * FloraJS: the steering engine of [src/agent.js]

    A shallow embedding of [Agent] (src/src/agent.js) and of the parts of
    Burner / Mover it calls, together with the properties the specification
    states about them.

    Number model.  JavaScript numbers are IEEE doubles; here they are
    idealised as real numbers.  A real division by zero has no JavaScript
    counterpart inside the reals (JavaScript yields an infinity or NaN), so
    the vector division is partial: it returns [None] where JavaScript would
    leave the finite numbers.  A result [Some v] therefore also says that
    every division executed on the way had a nonzero divisor. *)

From Stdlib Require Import Reals Lra Lia List String Bool ZArith Sorted.
Import ListNotations.
Open Scope R_scope.

(** ** Option as the error monad of partial arithmetic *)

Definition bind {A B : Type} (m : option A) (k : A -> option B) : option B :=
  match m with
  | Some a => k a
  | None => None
  end.

Notation "x <- m ;; k" := (bind m (fun x => k))
  (at level 61, m at next level, right associativity).

(** ** JavaScript comparisons and truthiness on numbers *)

(** [a < b] *)
Definition num_lt (a b : R) : bool := if Rlt_dec a b then true else false.

(** [a > b] *)
Definition num_gt (a b : R) : bool := num_lt b a.

(** [a !== 0] *)
Definition num_nonzero (a : R) : bool := if Req_dec_T a 0 then false else true.

(** A number used as a condition: every number but [0] is truthy. *)
Definition truthy (a : R) : bool := num_nonzero a.

(** ** Burner.Vector *)

Module Vector.

(** Modelled from the spec: Burner.Vector is not among the sources.  The
    spec's Vector2D is [{x: float, y: float}], a value type with
    arithmetic, normalization, magnitude, clamping and distance. *)
Record t : Type := mk { x : R; y : R }.

(** Modelled from the spec: [new Burner.Vector()], the zero vector. *)
Definition zero : t := mk 0 0.

(** Modelled from the spec: [v.add(w)], componentwise. *)
Definition add (v w : t) : t := mk (x v + x w) (y v + y w).

(** Modelled from the spec: [v.sub(w)], componentwise. *)
Definition sub (v w : t) : t := mk (x v - x w) (y v - y w).

(** Modelled from the spec: [Burner.Vector.VectorSub(v, w)], the difference
    as a new vector. *)
Definition VectorSub (v w : t) : t := sub v w.

(** Modelled from the spec: [v.mult(n)], the scaling by [n]. *)
Definition mult (v : t) (n : R) : t := mk (x v * n) (y v * n).

(** Modelled from the spec: [v.div(n)], the division of both components by
    [n]; partial, [None] for the divisor [0]. *)
Definition div (v : t) (n : R) : option t :=
  if num_nonzero n then Some (mk (x v / n) (y v / n)) else None.

(** Modelled from the spec: [v.mag()], the magnitude. *)
Definition mag (v : t) : R := sqrt (x v * x v + y v * y v).

(** Modelled from the spec: [v.normalize()].  "Normalization of the zero
    vector yields the zero vector (no divide-by-zero fault permitted)": a
    vector of magnitude [0] is left as it is. *)
Definition normalize (v : t) : option t :=
  let m := mag v in
  if num_nonzero m then div v m else Some v.

(** Modelled from the spec: [v.limit(high)], the clamping of the magnitude
    to [high]: a longer vector is normalized and scaled to [high]. *)
Definition limit (v : t) (high : R) : option t :=
  if num_gt (mag v) high
  then n <- normalize v ;; Some (mult n high)
  else Some v.

(** Modelled from the spec: [v.distance(w)]. *)
Definition distance (v w : t) : R :=
  sqrt ((x w - x v) * (x w - x v) + (y w - y v) * (y w - y v)).

(** Modelled from the spec: [Utils.clone(v)] on a vector, a copy. *)
Definition clone (v : t) : t := mk (x v) (y v).

End Vector.

(** ** Data model *)

Open Scope string_scope.
Open Scope list_scope.

(** An object that is sought or followed: only its [location] is read. *)
Module Target.
Record t : Type := mk { location : Vector.t }.
End Target.

(** A flow field: [resolution] is the cell size, [field[col][row]] the
    sampled direction.  [field col = None] is a column that is not
    populated ([field[col]] is undefined), [Some column] a populated one,
    whose rows may in turn be missing. *)
Module FlowField.
Record t : Type := mk {
  resolution : R;
  field : Z -> option (Z -> option Vector.t)
}.
End FlowField.

(** A sensor, with the fields [applyForces] reads and writes. *)
Module Sensor.
Record t : Type := mk {
  offsetDistance : R;
  offsetAngle : R;
  location : Vector.t;
  borderStyle : string;
  activated : bool
}.

Definition set_location (s : t) (l : Vector.t) : t :=
  mk (offsetDistance s) (offsetAngle s) l (borderStyle s) (activated s).

Definition set_borderStyle (s : t) (b : string) : t :=
  mk (offsetDistance s) (offsetAngle s) (location s) b (activated s).
End Sensor.

(** Modelled from the spec: [Mover] is not among the sources.  These are
    the fields of it that [agent.js] reads, the part of an [Agent] that
    [Mover] owns. *)
Module Mover.
Record t : Type := mk {
  id : string;
  className : string;
  location : Vector.t;
  velocity : Vector.t;
  acceleration : Vector.t;
  mass : R;
  maxSpeed : R;
  motorSpeed : R;
  angle : R;
  width : R
}.

Definition set_acceleration (m : t) (acc : Vector.t) : t :=
  mk (id m) (className m) (location m) (velocity m) acc
     (mass m) (maxSpeed m) (motorSpeed m) (angle m) (width m).

(** Modelled from the spec: [Mover.prototype.applyForce] is not among the
    sources.  "applyForce(f): acceleration += f / mass.  No bounds
    checking on mass." *)
Definition applyForce (m : t) (force : Vector.t) : option t :=
  f <- Vector.div force (mass m) ;;
  Some (set_acceleration m (Vector.add (acceleration m) f)).
End Mover.

(** A border colour is a string or an array. *)
Inductive Color : Type :=
| ColorName (s : string)
| ColorArray (c : list R).

Definition Color_truthy (c : Color) : bool :=
  match c with
  | ColorName s => negb (String.eqb s EmptyString)
  | ColorArray _ => true
  end.

(** The options object given to [init]; [None] is a missing (undefined)
    property. *)
Module Options.
Record t : Type := mk {
  followMouse : option bool;
  maxSteeringForce : option R;
  seekTarget : option Target.t;
  flocking : option bool;
  desiredSeparation : option R;
  separateStrength : option R;
  alignStrength : option R;
  cohesionStrength : option R;
  flowField : option FlowField.t;
  sensors : option (list Sensor.t);
  color : option (list R);
  borderWidth : option R;
  borderStyle : option string;
  borderColor : option Color;
  borderRadius : option R
}.

(** [{}] *)
Definition empty : t :=
  mk None None None None None None None None None None None None None None None.
End Options.

(** [!!v] on an optional boolean. *)
Definition to_boolean (v : option bool) : bool :=
  match v with
  | Some b => b
  | None => false
  end.

(** [typeof v === 'undefined' ? d : v] *)
Definition default_undefined {A : Type} (v : option A) (d : A) : A :=
  match v with
  | Some a => a
  | None => d
  end.

(** [v || d], with the truthiness of the values of [v] given by [t]. *)
Definition or_else {A : Type} (t : A -> bool) (v : option A) (d : A) : A :=
  match v with
  | Some a => if t a then a else d
  | None => d
  end.

(** The truthiness of an optional number. *)
Definition truthy_opt (v : option R) : bool :=
  match v with
  | Some a => truthy a
  | None => false
  end.

Module Agent.

(** The scratch vectors ([separateSumForceVector], [followTargetVector],
    ...) are accumulators that every use overwrites before reading; they
    are local values of the functions below. *)
Record t : Type := mk {
  body : Mover.t;
  followMouse : bool;
  maxSteeringForce : R;
  seekTarget : option Target.t;
  flocking : bool;
  desiredSeparation : R;
  separateStrength : R;
  alignStrength : R;
  cohesionStrength : R;
  flowField : option FlowField.t;
  sensors : list Sensor.t;
  color : list R;
  borderWidth : R;
  borderStyle : string;
  borderColor : Color;
  borderRadius : R
}.

Definition id (a : t) := Mover.id (body a).
Definition className (a : t) := Mover.className (body a).
Definition location (a : t) := Mover.location (body a).
Definition velocity (a : t) := Mover.velocity (body a).
Definition acceleration (a : t) := Mover.acceleration (body a).
Definition mass (a : t) := Mover.mass (body a).
Definition maxSpeed (a : t) := Mover.maxSpeed (body a).
Definition motorSpeed (a : t) := Mover.motorSpeed (body a).
Definition angle (a : t) := Mover.angle (body a).
Definition width (a : t) := Mover.width (body a).

Definition set_body (a : t) (m : Mover.t) : t :=
  mk m (followMouse a) (maxSteeringForce a) (seekTarget a) (flocking a)
     (desiredSeparation a) (separateStrength a) (alignStrength a)
     (cohesionStrength a) (flowField a) (sensors a) (color a)
     (borderWidth a) (borderStyle a) (borderColor a) (borderRadius a).

Definition set_sensors (a : t) (s : list Sensor.t) : t :=
  mk (body a) (followMouse a) (maxSteeringForce a) (seekTarget a) (flocking a)
     (desiredSeparation a) (separateStrength a) (alignStrength a)
     (cohesionStrength a) (flowField a) s (color a)
     (borderWidth a) (borderStyle a) (borderColor a) (borderRadius a).

(** [Agent.prototype.init].  [m] is the object as
    [Agent._superClass.prototype.init.call(this, options)] leaves it. *)
Definition init (m : Mover.t) (options : Options.t) : t :=
  let followMouse := to_boolean (Options.followMouse options) in
  let maxSteeringForce := default_undefined (Options.maxSteeringForce options) 10 in
  let seekTarget := Options.seekTarget options in
  let flocking := to_boolean (Options.flocking options) in
  let desiredSeparation :=
    default_undefined (Options.desiredSeparation options) (Mover.width m * 2) in
  let separateStrength := default_undefined (Options.separateStrength options) (3 / 10) in
  let alignStrength := default_undefined (Options.alignStrength options) (2 / 10) in
  let cohesionStrength := default_undefined (Options.cohesionStrength options) (1 / 10) in
  let flowField := Options.flowField options in
  let sensors := or_else (fun _ => true) (Options.sensors options) [] in
  let color := or_else (fun _ => true) (Options.color options) [197; 177; 115] in
  let borderWidth := or_else truthy (Options.borderWidth options) 0 in
  let borderStyle :=
    or_else (fun s => negb (String.eqb s EmptyString)) (Options.borderStyle options) "none" in
  let borderColor :=
    or_else Color_truthy (Options.borderColor options) (ColorName "transparent") in
  (* options.borderRadius || this.sensors.length ? 100 : 0
     parses as (options.borderRadius || this.sensors.length) ? 100 : 0 *)
  let borderRadius :=
    if truthy_opt (Options.borderRadius options)
       || negb (Nat.eqb (List.length sensors) 0)
    then 100 else 0 in
  mk m followMouse maxSteeringForce seekTarget flocking desiredSeparation
     separateStrength alignStrength cohesionStrength flowField sensors
     color borderWidth borderStyle borderColor borderRadius.

(** What [getLocation] and [getVelocity] return. *)
Inductive result : Type :=
| RVector (v : Vector.t)
| RNumber (n : R)
| RUndefined.

(** [!type] for an optional string. *)
Definition not_type (type : option string) : bool :=
  match type with
  | None => true
  | Some s => String.eqb s EmptyString
  end.

Definition type_is (type : option string) (s : string) : bool :=
  match type with
  | None => false
  | Some s' => String.eqb s' s
  end.

(** [Agent.prototype.getLocation] *)
Definition getLocation (a : t) (type : option string) : result :=
  if not_type type then
    RVector (Vector.mk (Vector.x (location a)) (Vector.y (location a)))
  else if type_is type "x" then RNumber (Vector.x (location a))
  else if type_is type "y" then RNumber (Vector.y (location a))
  else RUndefined.

(** [Agent.prototype.getVelocity] *)
Definition getVelocity (a : t) (type : option string) : result :=
  if not_type type then
    RVector (Vector.mk (Vector.x (location a)) (Vector.y (location a)))
  else if type_is type "x" then RNumber (Vector.x (velocity a))
  else if type_is type "y" then RNumber (Vector.y (velocity a))
  else RUndefined.

(** Modelled from the spec: [Mover.prototype._seek] is not among the
    sources.  "desired velocity = direction from self to target's
    location, scaled to maxSpeed; steering force = desired velocity -
    current velocity, magnitude-clamped to maxSteeringForce." *)
Definition _seek (a : t) (target : Target.t) : option Vector.t :=
  desiredVelocity <- Vector.normalize
                       (Vector.sub (Target.location target) (location a)) ;;
  let desiredVelocity := Vector.mult desiredVelocity (maxSpeed a) in
  let desiredVelocity := Vector.sub desiredVelocity (velocity a) in
  Vector.limit desiredVelocity (maxSteeringForce a).

(** [Agent.prototype.follow] *)
Definition follow (a : t) (target : Target.t) : option Vector.t :=
  let followDesiredVelocity :=
    Vector.mk (Vector.x (Target.location target)) (Vector.y (Target.location target)) in
  let followDesiredVelocity := Vector.mult followDesiredVelocity (maxSpeed a) in
  let followDesiredVelocity := Vector.sub followDesiredVelocity (velocity a) in
  Vector.limit followDesiredVelocity (maxSteeringForce a).

(** [this.className === element.className && this.id !== element.id] *)
Definition same_kind_other (a element : t) : bool :=
  String.eqb (className a) (className element)
  && negb (String.eqb (id a) (id element)).

(** The loop of [separate]: [sum] and [count] after the elements. *)
Fixpoint separate_loop (a : t) (elements : list t) (sum : Vector.t) (count : nat)
  : option (Vector.t * nat) :=
  match elements with
  | [] => Some (sum, count)
  | element :: rest =>
      if same_kind_other a element then
        let d := Vector.distance (location a) (location element) in
        if num_gt d 0 && num_lt d (desiredSeparation a) then
          diff <- Vector.normalize (Vector.VectorSub (location a) (location element)) ;;
          diff <- Vector.div diff d ;;
          separate_loop a rest (Vector.add sum diff) (S count)
        else separate_loop a rest sum count
      else separate_loop a rest sum count
  end.

(** The common end of [separate] and [align]: average, normalize, scale
    to [maxSpeed], subtract the velocity, clamp. *)
Definition steer_from_sum (a : t) (sum : Vector.t) (count : nat) : option Vector.t :=
  sum <- Vector.div sum (INR count) ;;
  sum <- Vector.normalize sum ;;
  let sum := Vector.mult sum (maxSpeed a) in
  let sum := Vector.sub sum (velocity a) in
  Vector.limit sum (maxSteeringForce a).

(** [Agent.prototype.separate] *)
Definition separate (a : t) (elements : list t) : option Vector.t :=
  r <- separate_loop a elements Vector.zero 0%nat ;;
  let '(sum, count) := r in
  if (0 <? count)%nat then steer_from_sum a sum count
  else Some Vector.zero.

(** The loop of [align], with [neighbordist = this.width * 2]. *)
Fixpoint align_loop (a : t) (elements : list t) (sum : Vector.t) (count : nat)
  : Vector.t * nat :=
  match elements with
  | [] => (sum, count)
  | element :: rest =>
      let d := Vector.distance (location a) (location element) in
      if num_gt d 0 && num_lt d (width a * 2) then
        if same_kind_other a element
        then align_loop a rest (Vector.add sum (velocity element)) (S count)
        else align_loop a rest sum count
      else align_loop a rest sum count
  end.

(** [Agent.prototype.align] *)
Definition align (a : t) (elements : list t) : option Vector.t :=
  let '(sum, count) := align_loop a elements Vector.zero 0%nat in
  if (0 <? count)%nat then steer_from_sum a sum count
  else Some Vector.zero.

(** The loop of [cohesion], with [neighbordist = 10]. *)
Fixpoint cohesion_loop (a : t) (elements : list t) (sum : Vector.t) (count : nat)
  : Vector.t * nat :=
  match elements with
  | [] => (sum, count)
  | element :: rest =>
      let d := Vector.distance (location a) (location element) in
      if num_gt d 0 && num_lt d 10 then
        if same_kind_other a element
        then cohesion_loop a rest (Vector.add sum (location element)) (S count)
        else cohesion_loop a rest sum count
      else cohesion_loop a rest sum count
  end.

(** [Agent.prototype.cohesion] *)
Definition cohesion (a : t) (elements : list t) : option Vector.t :=
  let '(sum, count) := cohesion_loop a elements Vector.zero 0%nat in
  if (0 <? count)%nat then
    sum <- Vector.div sum (INR count) ;;
    let sum := Vector.sub sum (location a) in
    sum <- Vector.normalize sum ;;
    let sum := Vector.mult sum (maxSpeed a) in
    let sum := Vector.sub sum (velocity a) in
    Vector.limit sum (maxSteeringForce a)
  else Some Vector.zero.

(** *** applyForces *)

(** [Burner.System] as [applyForces] reads it.  [Item] is the type of the
    objects in the caches (liquids, attractors, repellers); a cache that
    was never created is [None]. *)
Record System (Item : Type) : Type := mkSystem {
  caches_Liquid : option (list Item);
  caches_Attractor : option (list Item);
  caches_Repeller : option (list Item);
  mouse_location : Vector.t;
  supportedFeatures_touch : bool;
  (* Burner.System.getAllItemsByName('Agent') *)
  allAgents : list t
}.

(** The functions [applyForces] calls whose code is not among the sources;
    they are parameters of the model. *)
Record Externals (Item : Type) : Type := mkExternals {
  item_id : Item -> string;
  (* Utils.isInside(this, item) *)
  isInside : t -> Item -> bool;
  (* this.drag(item) *)
  drag : t -> Item -> Vector.t;
  (* this.attract(item) *)
  attract : t -> Item -> Vector.t;
  (* sensor.getActivationForce(this) *)
  getActivationForce : Sensor.t -> t -> Vector.t;
  (* Utils.degreesToRadians *)
  degreesToRadians : R -> R
}.

Arguments caches_Liquid {Item}.
Arguments caches_Attractor {Item}.
Arguments caches_Repeller {Item}.
Arguments mouse_location {Item}.
Arguments supportedFeatures_touch {Item}.
Arguments allAgents {Item}.
Arguments item_id {Item}.
Arguments isInside {Item}.
Arguments drag {Item}.
Arguments attract {Item}.
Arguments getActivationForce {Item}.
Arguments degreesToRadians {Item}.

(** The behaviour a call of [applyForce] belongs to. *)
Inductive Behavior : Type :=
| Drag | Attract | Repel | SensorForce | Motor | Pointer | Seek | Flow
| Separate | Align | Cohesion.

(** The place of a behaviour in the order of [applyForces]. *)
Definition rank (b : Behavior) : nat :=
  match b with
  | Drag => 0 | Attract => 1 | Repel => 2 | SensorForce => 3 | Motor => 4
  | Pointer => 5 | Seek => 6 | Flow => 7
  | Separate => 8 | Align => 9 | Cohesion => 10
  end%nat.

Definition Behavior_eqb (b c : Behavior) : bool := Nat.eqb (rank b) (rank c).

(** The state of one run of [applyForces]: the agent, and (ghost state)
    the forces given to [applyForce] so far, oldest first. *)
Record Run : Type := mkRun {
  self : t;
  applied : list (Behavior * Vector.t)
}.

(** [this.applyForce(force)], recorded under the behaviour [b]. *)
Definition apply (b : Behavior) (force : Vector.t) (r : Run) : option Run :=
  m <- Mover.applyForce (body (self r)) force ;;
  Some (mkRun (set_body (self r) m) (applied r ++ [(b, force)])).

(** [cache && cache.list.length > 0] *)
Definition nonempty_cache {Item : Type} (cache : option (list Item)) : list Item :=
  match cache with
  | Some list => if (0 <? List.length list)%nat then list else []
  | None => []
  end.

Section ApplyForces.
Context {Item : Type} (E : Externals Item) (sys : System Item).

Fixpoint liquid_loop (list : list Item) (r : Run) : option Run :=
  match list with
  | [] => Some r
  | liquid :: rest =>
      r <- (if negb (String.eqb (id (self r)) (item_id E liquid))
               && isInside E (self r) liquid
            then apply Drag (drag E (self r) liquid) r
            else Some r) ;;
      liquid_loop rest r
  end.

(** The loop over attractors and the loop over repellers have the same
    body; [b] tells them apart in the record. *)
Fixpoint attract_loop (b : Behavior) (list : list Item) (r : Run) : option Run :=
  match list with
  | [] => Some r
  | item :: rest =>
      r <- (if negb (String.eqb (id (self r)) (item_id E item))
            then apply b (attract E (self r) item) r
            else Some r) ;;
      attract_loop b rest r
  end.

(** The sensor at index [i], positioned at its offset from [this]; the
    border of every sensor but the first is removed. *)
Definition reposition (this : t) (i : nat) (sensor : Sensor.t) : Sensor.t :=
  let r := Sensor.offsetDistance sensor in
  let theta := degreesToRadians E (angle this + Sensor.offsetAngle sensor) in
  let x := r * cos theta in
  let y := r * sin theta in
  let sensor :=
    Sensor.set_location sensor
      (Vector.add (Vector.mk (Vector.x (location this)) (Vector.y (location this)))
                  (Vector.mk x y)) in
  if (0 <? i)%nat then Sensor.set_borderStyle sensor "none" else sensor.

(** The loop over [this.sensors]: [done] are the sensors before index
    [i], already repositioned, [todo] those from [i] on. *)
Fixpoint sensor_loop (i : nat) (done todo : list Sensor.t) (r : Run)
         (sensorActivated : bool) : option (Run * bool) :=
  match todo with
  | [] => Some (r, sensorActivated)
  | sensor :: rest =>
      let sensor := reposition (self r) i sensor in
      let r := mkRun (set_sensors (self r) (done ++ sensor :: rest)) (applied r) in
      if Sensor.activated sensor then
        r <- apply SensorForce (getActivationForce E sensor (self r)) r ;;
        sensor_loop (S i) (done ++ [sensor]) rest r true
      else sensor_loop (S i) (done ++ [sensor]) rest r sensorActivated
  end.

(** The force of the motor block: the normalized velocity, scaled by
    [-motorSpeed] or by [motorSpeed]. *)
Definition motor_force (this : t) : option Vector.t :=
  dir <- Vector.normalize (Vector.clone (velocity this)) ;;
  if num_gt (Vector.mag (velocity this)) (motorSpeed this)
  then Some (Vector.mult dir (- motorSpeed this))
  else Some (Vector.mult dir (motorSpeed this)).

Definition motor_step (sensorActivated : bool) (r : Run) : option Run :=
  if negb sensorActivated && truthy (motorSpeed (self r)) then
    dir <- motor_force (self r) ;;
    apply Motor dir r
  else Some r.

Definition pointer_step (r : Run) : option Run :=
  if followMouse (self r) && negb (supportedFeatures_touch sys) then
    let t := Target.mk (Vector.mk (Vector.x (mouse_location sys))
                                  (Vector.y (mouse_location sys))) in
    f <- _seek (self r) t ;;
    apply Pointer f r
  else Some r.

Definition seek_step (r : Run) : option Run :=
  match seekTarget (self r) with
  | Some target => f <- _seek (self r) target ;; apply Seek f r
  | None => Some r
  end.

(** [Math.floor(v / res)] as an index: for [res = 0] the quotient is
    not finite, and no property of an array or object is found at it. *)
Definition cell (v res : R) : option Z :=
  if num_nonzero res then Some (Int_part (v / res)) else None.

(** [field[col]] *)
Definition column (ff : FlowField.t) (col : option Z) : option (Z -> option Vector.t) :=
  match col with
  | Some c => FlowField.field ff c
  | None => None
  end.

(** [field[col][row]] for a populated column. *)
Definition sample (column : Z -> option Vector.t) (row : option Z) : option Vector.t :=
  match row with
  | Some r => column r
  | None => None
  end.

(** [this.followTargetVector] once the column is known to be populated. *)
Definition followTarget (this : t) (loc : option Vector.t) : Vector.t :=
  match loc with
  | Some loc => Vector.mk (Vector.x loc) (Vector.y loc)
  | None => Vector.mk (Vector.x (location this)) (Vector.y (location this))
  end.

Definition flow_step (r : Run) : option Run :=
  match flowField (self r) with
  | Some ff =>
      let res := FlowField.resolution ff in
      let col := cell (Vector.x (location (self r))) res in
      let row := cell (Vector.y (location (self r))) res in
      match column ff col with
      | Some fcol =>
          let target := Target.mk (followTarget (self r) (sample fcol row)) in
          f <- follow (self r) target ;;
          apply Flow f r
      | None => Some r
      end
  | None => Some r
  end.

(** [Agent.prototype.flock]; it returns [this.acceleration]. *)
Definition flock (elements : list t) (r : Run) : option Run :=
  f <- separate (self r) elements ;;
  r <- apply Separate (Vector.mult f (separateStrength (self r))) r ;;
  f <- align (self r) elements ;;
  r <- apply Align (Vector.mult f (alignStrength (self r))) r ;;
  f <- cohesion (self r) elements ;;
  apply Cohesion (Vector.mult f (cohesionStrength (self r))) r.

Definition flock_step (r : Run) : option Run :=
  if flocking (self r) then flock (allAgents sys) r else Some r.

(** [Agent.prototype.applyForces], from the run state [r]. *)
Definition applyForces_from (r : Run) : option (Vector.t * Run) :=
  r <- liquid_loop (nonempty_cache (caches_Liquid sys)) r ;;
  r <- attract_loop Attract (nonempty_cache (caches_Attractor sys)) r ;;
  r <- attract_loop Repel (nonempty_cache (caches_Repeller sys)) r ;;
  s <- sensor_loop 0 [] (sensors (self r)) r false ;;
  let '(r, sensorActivated) := s in
  r <- motor_step sensorActivated r ;;
  r <- pointer_step r ;;
  r <- seek_step r ;;
  r <- flow_step r ;;
  r <- flock_step r ;;
  Some (acceleration (self r), r).

(** [Agent.prototype.applyForces]: the returned acceleration, and the
    final state with the record of the forces applied. *)
Definition applyForces (this : t) : option (Vector.t * Run) :=
  applyForces_from (mkRun this []).

End ApplyForces.

End Agent.

(** ** The contributions of one run, stated from the agent at its start *)

Module Contributions.
Import Agent.

(** The agent [a] with another acceleration and other sensors: all that
    a run of [applyForces] changes. *)
Definition retarget (a : t) (acc : Vector.t) (sens : list Sensor.t) : t :=
  set_sensors (set_body a (Mover.set_acceleration (body a) acc)) sens.

(** [a'] is [a] but for the acceleration and for the positions and border
    styles of the sensors. *)
Definition frame (a a' : t) : Prop :=
  exists acc sens,
    a' = retarget a acc sens
    /\ map Sensor.activated sens = map Sensor.activated (sensors a).

Definition total (l : list R) : R := fold_right Rplus 0 l.

(** [acc] after [acceleration += f / mass] for every recorded force. *)
Definition accumulate (mass : R) (acc : Vector.t) (log : list (Behavior * Vector.t))
  : Vector.t :=
  Vector.mk (Vector.x acc + total (map (fun p => Vector.x (snd p) / mass) log))
            (Vector.y acc + total (map (fun p => Vector.y (snd p) / mass) log)).

(** The forces recorded under the behaviour [b], oldest first. *)
Definition entries (b : Behavior) (log : list (Behavior * Vector.t)) : list Vector.t :=
  map snd (filter (fun p => Behavior_eqb (fst p) b) log).

Definition tagged (b : Behavior) (log : list (Behavior * Vector.t)) : Prop :=
  Forall (fun p => fst p = b) log.

(** The behaviours of a record come in the order of [applyForces]. *)
Definition ordered (log : list (Behavior * Vector.t)) : Prop :=
  StronglySorted (fun p q => (rank (fst p) <= rank (fst q))%nat) log.

Definition one (b : Behavior) (force : option Vector.t) : list (Behavior * Vector.t) :=
  match force with
  | Some f => [(b, f)]
  | None => []
  end.

Definition scaled (force : option Vector.t) (strength : R) : option Vector.t :=
  match force with
  | Some f => Some (Vector.mult f strength)
  | None => None
  end.

Definition anySensorActivated (a : t) : bool :=
  existsb Sensor.activated (sensors a).

Definition motor_log (a : t) : list (Behavior * Vector.t) :=
  if negb (anySensorActivated a) && truthy (motorSpeed a)
  then one Motor (motor_force a) else [].

Definition pointer_log {Item : Type} (sys : System Item) (a : t)
  : list (Behavior * Vector.t) :=
  if followMouse a && negb (supportedFeatures_touch sys)
  then one Pointer (_seek a (Target.mk (mouse_location sys))) else [].

Definition seek_log (a : t) : list (Behavior * Vector.t) :=
  match seekTarget a with
  | Some target => one Seek (_seek a target)
  | None => []
  end.

(** The cell of the agent in the flow field [ff]: is its column
    populated, and if so, is there a sample at its row. *)
Definition agent_column (a : t) (ff : FlowField.t) : option (Z -> option Vector.t) :=
  column ff (cell (Vector.x (location a)) (FlowField.resolution ff)).

Definition agent_sample (a : t) (ff : FlowField.t) (fcol : Z -> option Vector.t)
  : option Vector.t :=
  sample fcol (cell (Vector.y (location a)) (FlowField.resolution ff)).

Definition flow_log (a : t) : list (Behavior * Vector.t) :=
  match flowField a with
  | Some ff =>
      match agent_column a ff with
      | Some fcol =>
          match agent_sample a ff fcol with
          | Some loc => one Flow (follow a (Target.mk loc))
          | None => one Flow (follow a (Target.mk (location a)))
          end
      | None => []
      end
  | None => []
  end.

Definition flock_log {Item : Type} (sys : System Item) (a : t)
  : list (Behavior * Vector.t) :=
  if flocking a then
    one Separate (scaled (separate a (allAgents sys)) (separateStrength a))
    ++ one Align (scaled (align a (allAgents sys)) (alignStrength a))
    ++ one Cohesion (scaled (cohesion a (allAgents sys)) (cohesionStrength a))
  else [].

(** [r'] is [r] after the forces [ext] have been applied. *)
Definition extends (r : Run) (ext : list (Behavior * Vector.t)) (r' : Run) : Prop :=
  applied r' = applied r ++ ext
  /\ frame (self r) (self r')
  /\ acceleration (self r')
     = accumulate (mass (self r)) (acceleration (self r)) ext.

(** A force that is returned and whose magnitude is at most [high]. *)
Definition bounded_result (r : option Vector.t) (high : R) : Prop :=
  exists f, r = Some f /\ Vector.mag f <= high.

(** The forces of a loop over [list]: for every item that passes
  [keep], in the order of the list, the force [force this item], where
  [this] is the agent as the run has it then. *)
Inductive per_item {Item : Type} (a : t) (b : Behavior)
        (keep : t -> Item -> bool) (force : t -> Item -> Vector.t)
: list Item -> list (Behavior * Vector.t) -> Prop :=
| per_item_nil : per_item a b keep force [] []
| per_item_keep (this : t) (item : Item) (rest : list Item)
              (ext : list (Behavior * Vector.t)) :
  frame a this -> keep this item = true ->
  per_item a b keep force rest ext ->
  per_item a b keep force (item :: rest) ((b, force this item) :: ext)
| per_item_skip (this : t) (item : Item) (rest : list Item)
              (ext : list (Behavior * Vector.t)) :
  frame a this -> keep this item = false ->
  per_item a b keep force rest ext ->
  per_item a b keep force (item :: rest) ext.

(** [this.id !== item.id] *)
Definition other {Item : Type} (E : Externals Item) (this : t) (item : Item) : bool :=
negb (String.eqb (id this) (item_id E item)).

(** [this.id !== liquid.id && Utils.isInside(this, liquid)] *)
Definition other_inside {Item : Type} (E : Externals Item) (this : t) (liquid : Item)
: bool :=
other E this liquid && isInside E this liquid.

(** The sensors with their indices, from [i] on. *)
Definition indexed (i : nat) (l : list Sensor.t) : list (nat * Sensor.t) :=
combine (seq i (List.length l)) l.

Definition sensor_activated (this : t) (p : nat * Sensor.t) : bool :=
Sensor.activated (snd p).

Definition sensor_force {Item : Type} (E : Externals Item) (this : t)
         (p : nat * Sensor.t) : Vector.t :=
getActivationForce E (reposition E this (fst p) (snd p)) this.

(** The record of a run, behaviour by behaviour: the forces of the loops
  over liquids, attractors, repellers and sensors, then what the motor,
  the pointer, the seek target, the flow field and the flock add, as
  functions of the agent at the start. *)
Definition decomposes {Item : Type} (E : Externals Item) (sys : System Item) (a : t)
         (log Ld La Lr Ls : list (Behavior * Vector.t)) : Prop :=
log = Ld ++ La ++ Lr ++ Ls ++ motor_log a ++ pointer_log sys a
         ++ seek_log a ++ flow_log a ++ flock_log sys a
/\ per_item a Drag (other_inside E) (drag E)
            (nonempty_cache (caches_Liquid sys)) Ld
/\ per_item a Attract (other E) (attract E)
            (nonempty_cache (caches_Attractor sys)) La
/\ per_item a Repel (other E) (attract E)
            (nonempty_cache (caches_Repeller sys)) Lr
/\ per_item a SensorForce sensor_activated (sensor_force E)
            (indexed 0 (sensors a)) Ls.

(** All behaviours of a record have their ranks between [lo] and [hi]. *)
Definition ranked (lo hi : nat) (log : list (Behavior * Vector.t)) : Prop :=
Forall (fun p => (lo <= rank (fst p) <= hi)%nat) log.

Definition is_nil {A : Type} (l : list A) : bool :=
match l with
| [] => true
| _ :: _ => false
end.

(** The activating condition of each behaviour, on the agent at the start. *)
Definition active {Item : Type} (sys : System Item) (a : t) (b : Behavior) : bool :=
match b with
| Drag => negb (is_nil (nonempty_cache (caches_Liquid sys)))
| Attract => negb (is_nil (nonempty_cache (caches_Attractor sys)))
| Repel => negb (is_nil (nonempty_cache (caches_Repeller sys)))
| SensorForce => anySensorActivated a
| Motor => negb (anySensorActivated a) && truthy (motorSpeed a)
| Pointer => followMouse a && negb (supportedFeatures_touch sys)
| Seek => match seekTarget a with Some _ => true | None => false end
| Flow =>
    match flowField a with
    | Some ff => match agent_column a ff with Some _ => true | None => false end
    | None => false
    end
| Separate | Align | Cohesion => flocking a
end.


End Contributions.

(** ** Concrete agents and systems *)

Module Scenario.
Import Agent.

(** Items of the caches, represented by their ids; no item contains an
    agent and every external force is zero. *)
Definition externals : Externals string :=
  mkExternals string (fun s => s) (fun _ _ => false)
              (fun _ _ => Vector.zero) (fun _ _ => Vector.zero)
              (fun _ _ => Vector.zero) (fun d => d * PI / 180).

(** A system without caches, the pointer at the origin, no touch. *)
Definition system (agents : list t) : System string :=
  mkSystem string None None None Vector.zero false agents.

(** What [Mover]'s [init] leaves: mass 1, maxSpeed 1, width 10. *)
Definition mover (id : string) (location velocity : Vector.t) (motorSpeed : R)
  : Mover.t :=
  Mover.mk id "Agent" location velocity Vector.zero 1 1 motorSpeed 0 10.

(** A flow field of resolution 10 whose column 0 exists and is empty:
    [field = [[]]]. *)
Definition empty_column : FlowField.t :=
  FlowField.mk 10 (fun col => if (col =? 0)%Z then Some (fun _ => None) else None).

(** [new Agent({flowField: empty_column})] at (3, 4), at rest. *)
Definition flow_agent : t :=
  init (mover "Agent1" (Vector.mk 3 4) Vector.zero 0)
       (Options.mk None None None None None None None None
                   (Some empty_column) None None None None None None).

(** [{flocking: true, maxSteeringForce: 1, separateStrength: 2}] *)
Definition flock_options : Options.t :=
  Options.mk None (Some 1) None (Some true) None (Some 2) None None
             None None None None None None None.

(** Two agents of a flock, one unit apart, at rest. *)
Definition flock_a : t := init (mover "Agent1" Vector.zero Vector.zero 0) flock_options.
Definition flock_b : t := init (mover "Agent2" (Vector.mk 1 0) Vector.zero 0) flock_options.

(** An agent at the place of [flock_a]. *)
Definition flock_twin : t := init (mover "Agent2" Vector.zero Vector.zero 0) flock_options.

(** [new Agent({})] with [motorSpeed = 2], moving with velocity (3, 4). *)
Definition motor_agent : t :=
  init (mover "Agent1" Vector.zero (Vector.mk 3 4) 2) Options.empty.

(** [new Agent({})] *)
Definition plain_agent : t :=
  init (mover "Agent1" Vector.zero Vector.zero 0) Options.empty.

(** [{borderRadius: 50}] *)
Definition round_options : Options.t :=
  Options.mk None None None None None None None None None None
             None None None None (Some 50).

End Scenario.

(** ** What a run leaves, and single neighbours *)

Module Layout.
Import Agent Contributions.

(** The sensors of [a] as the loop over [this.sensors] leaves them. *)
Definition repositioned {Item : Type} (E : Externals Item) (a : t) : list Sensor.t :=
  map (fun p => reposition E a (fst p) (snd p)) (indexed 0 (sensors a)).

(** The unit vector that points from [v] to [w]. *)
Definition toward (v w : Vector.t) : Vector.t :=
  Vector.mk ((Vector.x w - Vector.x v) / Vector.distance v w)
            ((Vector.y w - Vector.y v) / Vector.distance v w).

(** [v] scaled to the magnitude 1. *)
Definition heading (v : Vector.t) : Vector.t :=
  Vector.mk (Vector.x v / Vector.mag v) (Vector.y v / Vector.mag v).

(** The steering towards the desired velocity [maxSpeed * direction]. *)
Definition steer (a : t) (direction : Vector.t) : option Vector.t :=
  Vector.limit (Vector.sub (Vector.mult direction (maxSpeed a)) (velocity a))
               (maxSteeringForce a).

(** [element] is a neighbour of [a]: of its kind, not itself, and at a
    distance above 0 and below [radius]. *)
Definition neighbour (a : t) (radius : R) (element : t) : bool :=
  same_kind_other a element
  && num_gt (Vector.distance (location a) (location element)) 0
  && num_lt (Vector.distance (location a) (location element)) radius.

(** [a'] is [a] but for the acceleration. *)
Definition reaccelerated (a a' : t) : Prop :=
  exists acc, a' = retarget a acc (sensors a).

End Layout.

(** ** Cold (src/src/cold.js) *)

Module Cold.

(** The options [Cold] reads; [None] is a missing property. *)
Record options : Type := mkOptions {
  opt_mass : option R;
  opt_isStatic : option bool;
  opt_width : option R;
  opt_height : option R;
  opt_opacity : option R
}.

(** The properties the constructor of [Cold] assigns, after
    [exports.Mover.call(this, options)]. *)
Record t : Type := mk {
  mass : R;
  isStatic : bool;
  width : R;
  height : R;
  opacity : R
}.

(** [v === 0 ? 0 : v || d] *)
Definition zero_or (v : option R) (d : R) : R :=
  match v with
  | Some n => if num_nonzero n then or_else truthy v d else 0
  | None => or_else truthy v d
  end.

(** [v === false ? false : v || true] *)
Definition false_or_true (v : option bool) : bool :=
  match v with
  | Some false => false
  | _ => or_else (fun b : bool => b) v true
  end.

(** [function Cold(opt_options)] *)
Definition Cold (options : options) : t :=
  mk (zero_or (opt_mass options) 50)
     (false_or_true (opt_isStatic options))
     (zero_or (opt_width options) 20)
     (zero_or (opt_height options) 20)
     (zero_or (opt_opacity options) (5 / 10)).

End Cold.

(** ** ColorTable (src/unnamed/part_001) *)

Module ColorTable.

(** What [this[name]] finds: an object stored by [addColor], or another
    property of the table (the inherited [name], [addColor], [getColor],
    ...), which is truthy and has neither [startColor] nor [endColor]. *)
Inductive property : Type :=
| Entry (startColor endColor : list R)
| Inherited.

(** The table, as the lookup [this[name]]; [None] is undefined.  An
    assignment [this[name] = v] makes [v] what [this[name]] finds; for the
    name [__proto__] it also replaces what the table inherits, so what is
    stated about the other names after an assignment excludes that name. *)
Definition t : Type := string -> option property.

Definition prop_startColor (p : property) : option (list R) :=
  match p with
  | Entry s _ => Some s
  | Inherited => None
  end.

Definition prop_endColor (p : property) : option (list R) :=
  match p with
  | Entry _ e => Some e
  | Inherited => None
  end.

(** The options of [addColor]. *)
Record options : Type := mkOptions {
  name : string;
  startColor : list R;
  endColor : list R
}.

(** [ColorTable.prototype.addColor]; it returns the table.
    [checkRequiredParams] stands for
    [Interface.checkRequiredParams(options, requiredOptions)], whose code
    is not among the sources. *)
Definition addColor (checkRequiredParams : options -> bool) (this : t)
           (options : options) : t :=
  if checkRequiredParams options then
    fun n =>
      if String.eqb n (name options)
      then Some (Entry (startColor options) (endColor options))
      else this n
  else this.

(** The first argument of [getColor]: a string, or a value for which
    [Interface.getDataType] does not answer ['string']. *)
Inductive arg : Type :=
| Str (s : string)
| NotString.

(** What [getColor] does: it returns an object with both colours, returns
    one colour, throws, or falls off its end. *)
Inductive outcome : Type :=
| Range (startColor endColor : option (list R))
| Single (color : list R)
| Throw (message : string)
| Undefined.

Definition is_some {A : Type} (v : option A) : bool :=
  match v with
  | Some _ => true
  | None => false
  end.

(** [ColorTable.prototype.getColor] *)
Definition getColor (this : t) (name : arg) (startColor endColor : bool) : outcome :=
  match name with
  | Str name =>
      match this name with
      | Some color =>
          let startCol := if startColor then prop_startColor color else None in
          let endCol := if endColor then prop_endColor color else None in
          if (is_some startCol && is_some endCol)
             || (negb (is_some startCol) && negb (is_some endCol))
          then Range (prop_startColor color) (prop_endColor color)
          else
            match startCol with
            | Some c => Single c
            | None =>
                match endCol with
                | Some c => Single c
                | None => Undefined
                end
            end
      | None =>
          Throw (String.append "ColorTable: "
                   (String.append name
                      " does not exist. Add colors to the ColorTable via addColor()."))
      end
  | NotString =>
      Throw "ColorTable: You must pass a name (string) for the color entry in the table."
  end.

End ColorTable.

(** ** World.resize (src/unnamed/part_000) *)

Module World.

(** An element of [Flora.elements], with what [resize] reads. *)
Record element : Type := mkElement {
  location : Vector.t;
  controlCamera : bool
}.

(** The world, with what [resize] reads and writes; [el_is_body] is
    [this.el === document.body]. *)
Record t : Type := mk {
  width : R;
  height : R;
  el_is_body : bool
}.

(** [a / b], partial as the vector division is. *)
Definition num_div (a b : R) : option R :=
  if num_nonzero b then Some (a / b) else None.

(** The second loop of [resize]: every location recalculated. *)
Fixpoint relocate (this : t) (windowWidth windowHeight : R) (elements : list element)
  : option (list element) :=
  match elements with
  | [] => Some []
  | e :: rest =>
      x <- num_div (Vector.x (location e)) (width this) ;;
      y <- num_div (Vector.y (location e)) (height this) ;;
      rest <- relocate this windowWidth windowHeight rest ;;
      Some (mkElement (Vector.mk (windowWidth * x) (windowHeight * y))
                      (controlCamera e) :: rest)
  end.

(** [World.prototype.resize], with [windowWidth = $(window).width()] and
    [windowHeight = $(window).height()]: the world and the elements after
    it. *)
Definition resize (this : t) (elements : list element) (windowWidth windowHeight : R)
  : option (t * list element) :=
  if existsb controlCamera elements then Some (this, elements)
  else
    elements <- relocate this windowWidth windowHeight elements ;;
    if el_is_body this
    then Some (mk windowWidth windowHeight (el_is_body this), elements)
    else Some (this, elements).

End World.

(** ** More concrete inputs *)

Module Gallery.
Import Agent.

(** An agent at (3, 4) with two sensors, the second one activated. *)
Definition sensing_agent : t :=
  init (Scenario.mover "Agent1" (Vector.mk 3 4) Vector.zero 0)
       (Options.mk None None None None None None None None None
                   (Some [Sensor.mk 10 0 Vector.zero "solid" false;
                          Sensor.mk 10 90 Vector.zero "solid" true])
                   None None None None None).

(** A flow field of resolution 10 with the one sample (1, 0) at cell
    (0, 0). *)
Definition arrow_field : FlowField.t :=
  FlowField.mk 10 (fun col =>
                     if (col =? 0)%Z
                     then Some (fun row => if (row =? 0)%Z
                                           then Some (Vector.mk 1 0) else None)
                     else None).

Definition arrow_agent : t :=
  init (Scenario.mover "Agent1" (Vector.mk 3 4) Vector.zero 0)
       (Options.mk None None None None None None None None
                   (Some arrow_field) None None None None None None).

(** A flow field of resolution 0. *)
Definition flat_field : FlowField.t := FlowField.mk 0 (fun _ => None).

Definition flat_agent : t :=
  init (Scenario.mover "Agent1" (Vector.mk 3 4) Vector.zero 0)
       (Options.mk None None None None None None None None
                   (Some flat_field) None None None None None None).

(** [new Agent({})] with [motorSpeed = 2], at rest. *)
Definition resting_motor_agent : t :=
  init (Scenario.mover "Agent1" Vector.zero Vector.zero 2) Options.empty.

(** A table without any property, a check that accepts every options
    object, and the range of the example in the documentation. *)
Definition no_colors : ColorTable.t := fun _ => None.

Definition accept_all (o : ColorTable.options) : bool := true.

Definition heat : ColorTable.options :=
  ColorTable.mkOptions "heat" [255; 132; 86] [175; 47; 0].

(** A world of 800 x 600 on the document body with one element at its
    centre, and the same element controlling the camera. *)
Definition body_world : World.t := World.mk 800 600 true.

Definition centre : list World.element :=
  [World.mkElement (Vector.mk 400 300) false].

Definition camera_centre : list World.element :=
  [World.mkElement (Vector.mk 400 300) true].

End Gallery.

(** ** The contributions of a run, read off the caches, the sensors and
    the flow field *)

Module Direct.
Import Agent Contributions.

(** The objects of a cache, [cache.list]; none for a cache that was never
    created. *)
Definition cache_items {Item : Type} (cache : option (list Item)) : list Item :=
  match cache with
  | Some list => list
  | None => []
  end.

(** The sensor at index [i] once [this] has positioned it: at the location
    of [this] plus the offset of the sensor, without a border unless it is
    the first one. *)
Definition placed {Item : Type} (E : Externals Item) (this : t) (i : nat)
           (sensor : Sensor.t) : Sensor.t :=
  Sensor.mk
    (Sensor.offsetDistance sensor)
    (Sensor.offsetAngle sensor)
    (Vector.add (location this)
       (Vector.mk
          (Sensor.offsetDistance sensor
           * cos (degreesToRadians E (angle this + Sensor.offsetAngle sensor)))
          (Sensor.offsetDistance sensor
           * sin (degreesToRadians E (angle this + Sensor.offsetAngle sensor)))))
    (if (0 <? i)%nat then "none" else Sensor.borderStyle sensor)
    (Sensor.activated sensor).

(** [sensor.getActivationForce(this)] for the positioned sensor. *)
Definition placed_force {Item : Type} (E : Externals Item) (this : t)
           (p : nat * Sensor.t) : Vector.t :=
  getActivationForce E (placed E this (fst p) (snd p)) this.

(** What the motor adds: nothing when a sensor is activated or
    [motorSpeed] is 0, else the normalized velocity scaled by
    [-motorSpeed] when [motorSpeed < |velocity|] and by [motorSpeed]
    otherwise. *)
Definition motor_direct (a : t) : list (Behavior * Vector.t) :=
  if negb (anySensorActivated a)
     && (if Req_dec_T (motorSpeed a) 0 then false else true)
  then
    match Vector.normalize (velocity a) with
    | Some dir =>
        [(Motor,
          Vector.mult dir
            (if Rlt_dec (motorSpeed a) (Vector.mag (velocity a))
             then - motorSpeed a else motorSpeed a))]
    | None => []
    end
  else [].

(** What the flow field adds: nothing without a flow field, for the
    resolution 0, or when [field[col]] is missing, with
    [col = floor(location.x / resolution)]; else the force of [follow] for
    the sample [field[col][row]], or for the own location when that sample
    is missing. *)
Definition flow_direct (a : t) : list (Behavior * Vector.t) :=
  match flowField a with
  | Some ff =>
      if Req_dec_T (FlowField.resolution ff) 0 then []
      else
        match FlowField.field ff
                (Int_part (Vector.x (location a) / FlowField.resolution ff)) with
        | Some fcol =>
            match fcol (Int_part (Vector.y (location a) / FlowField.resolution ff)) with
            | Some loc => one Flow (follow a (Target.mk loc))
            | None => one Flow (follow a (Target.mk (location a)))
            end
        | None => []
        end
  | None => []
  end.

(** The record of a run, behaviour by behaviour, in terms of
    [Burner.System._caches], [this.sensors] and [flowField.field]. *)
Definition decomposes_direct {Item : Type} (E : Externals Item) (sys : System Item)
           (a : t) (log Ld La Lr Ls : list (Behavior * Vector.t)) : Prop :=
  log = Ld ++ La ++ Lr ++ Ls ++ motor_direct a ++ pointer_log sys a
           ++ seek_log a ++ flow_direct a ++ flock_log sys a
  /\ per_item a Drag (other_inside E) (drag E)
              (cache_items (caches_Liquid sys)) Ld
  /\ per_item a Attract (other E) (attract E)
              (cache_items (caches_Attractor sys)) La
  /\ per_item a Repel (other E) (attract E)
              (cache_items (caches_Repeller sys)) Lr
  /\ per_item a SensorForce sensor_activated (placed_force E)
              (indexed 0 (sensors a)) Ls.

(** The activating condition of each behaviour, in the same terms. *)
Definition active_direct {Item : Type} (sys : System Item) (a : t) (b : Behavior)
  : bool :=
  match b with
  | Drag => negb (is_nil (cache_items (caches_Liquid sys)))
  | Attract => negb (is_nil (cache_items (caches_Attractor sys)))
  | Repel => negb (is_nil (cache_items (caches_Repeller sys)))
  | SensorForce => anySensorActivated a
  | Motor =>
      negb (anySensorActivated a)
      && (if Req_dec_T (motorSpeed a) 0 then false else true)
  | Pointer => followMouse a && negb (supportedFeatures_touch sys)
  | Seek => match seekTarget a with Some _ => true | None => false end
  | Flow =>
      match flowField a with
      | Some ff =>
          if Req_dec_T (FlowField.resolution ff) 0 then false
          else
            match FlowField.field ff
                    (Int_part (Vector.x (location a) / FlowField.resolution ff)) with
            | Some _ => true
            | None => false
            end
      | None => false
      end
  | Separate | Align | Cohesion => flocking a
  end.

End Direct.

(** ** A run with most behaviours at work *)

Module Busy.
Import Agent.

(** Items of the caches, represented by their ids; every item contains
    every agent; drag is (1, 0), attraction (0, 1), the force of a sensor
    (1, 1). *)
Definition externals : Externals string :=
  mkExternals string (fun s => s) (fun _ _ => true)
              (fun _ _ => Vector.mk 1 0) (fun _ _ => Vector.mk 0 1)
              (fun _ _ => Vector.mk 1 1) (fun d => d * PI / 180).

(** An agent at (3, 4) that follows the pointer, seeks (10, 0), flocks,
    follows [Gallery.arrow_field] and has one activated sensor. *)
Definition busy_agent : t :=
  init (Scenario.mover "Agent1" (Vector.mk 3 4) Vector.zero 0)
       (Options.mk (Some true) None (Some (Target.mk (Vector.mk 10 0))) (Some true)
                   None None None None (Some Gallery.arrow_field)
                   (Some [Sensor.mk 10 0 Vector.zero "solid" true])
                   None None None None None).

(** One liquid; the agent itself and another attractor; one repeller; the
    pointer at (7, 7). *)
Definition busy_system : System string :=
  mkSystem string (Some ["Liquid1"]) (Some ["Agent1"; "Attractor1"])
           (Some ["Repeller1"]) (Vector.mk 7 7) false [busy_agent].

End Busy.

(** * Properties *)

(** ** Comparisons *)

Lemma num_lt_true (a b : R) : num_lt a b = true <-> a < b.
Proof. unfold num_lt; destruct (Rlt_dec a b); split; intros; try easy; lra. Qed.

Lemma num_lt_false (a b : R) : num_lt a b = false <-> b <= a.
Proof. unfold num_lt; destruct (Rlt_dec a b); split; intros; try easy; lra. Qed.

Lemma num_gt_true (a b : R) : num_gt a b = true <-> b < a.
Proof. apply num_lt_true. Qed.

Lemma num_gt_false (a b : R) : num_gt a b = false <-> a <= b.
Proof. apply num_lt_false. Qed.

Lemma num_nonzero_true (a : R) : num_nonzero a = true <-> a <> 0.
Proof. unfold num_nonzero; destruct (Req_dec_T a 0); split; intros; easy. Qed.

Lemma num_nonzero_false (a : R) : num_nonzero a = false <-> a = 0.
Proof. unfold num_nonzero; destruct (Req_dec_T a 0); split; intros; easy. Qed.

(** ** Vectors *)

Module VectorFacts.
Import Vector.

Lemma eta (v : t) : mk (x v) (y v) = v.
Proof. destruct v; reflexivity. Qed.

Lemma sq_sum_nonneg (a b : R) : 0 <= a * a + b * b.
Proof. nra. Qed.

Lemma mag_nonneg (v : t) : 0 <= mag v.
Proof. apply sqrt_pos. Qed.

Lemma mag_sq (v : t) : mag v * mag v = x v * x v + y v * y v.
Proof. apply sqrt_sqrt, sq_sum_nonneg. Qed.

Lemma mag_zero : mag zero = 0.
Proof. unfold mag, zero; simpl. replace (0 * 0 + 0 * 0) with 0 by ring. apply sqrt_0. Qed.

Lemma mag_eq_0 (v : t) : mag v = 0 -> v = zero.
Proof.
  intros H. apply sqrt_eq_0 in H; [|apply sq_sum_nonneg].
  destruct v as [a b]; simpl in *. unfold zero.
  assert (a = 0) by nra. assert (b = 0) by nra. subst; reflexivity.
Qed.

Lemma mag_mk (a b m : R) : 0 <= m -> m * m = a * a + b * b -> mag (mk a b) = m.
Proof.
  intros Hm E. unfold mag; simpl. apply sqrt_lem_1; auto. apply sq_sum_nonneg.
Qed.

Lemma mag_mult (v : t) (n : R) : 0 <= n -> mag (mult v n) = mag v * n.
Proof.
  intros Hn. destruct v as [a b]. unfold mult; simpl.
  apply mag_mk.
  - apply Rmult_le_pos; [apply mag_nonneg | assumption].
  - pose proof (mag_sq (mk a b)) as E; simpl in E.
    replace (mag (mk a b) * n * (mag (mk a b) * n))
      with ((mag (mk a b) * mag (mk a b)) * (n * n)) by ring.
    rewrite E; ring.
Qed.

Lemma div_some (v : t) (n : R) :
  n <> 0 -> div v n = Some (mk (x v / n) (y v / n)).
Proof.
  intros H. unfold div. apply num_nonzero_true in H. rewrite H. reflexivity.
Qed.

Lemma div_none (v : t) : div v 0 = None.
Proof.
  unfold div. replace (num_nonzero 0) with false; [reflexivity|].
  symmetry; apply num_nonzero_false; reflexivity.
Qed.

Lemma div_defined (v w : t) (n : R) : div v n = Some w -> n <> 0.
Proof.
  unfold div. destruct (num_nonzero n) eqn:E; [|discriminate].
  intros _. apply num_nonzero_true; assumption.
Qed.

Lemma normalize_zero : normalize zero = Some zero.
Proof.
  unfold normalize. rewrite mag_zero.
  replace (num_nonzero 0) with false; [reflexivity|].
  symmetry; apply num_nonzero_false; reflexivity.
Qed.

Lemma normalize_nonzero (v : t) :
  mag v <> 0 -> normalize v = Some (mk (x v / mag v) (y v / mag v)).
Proof.
  intros H. unfold normalize.
  pose proof (proj2 (num_nonzero_true _) H) as E. rewrite E.
  apply div_some; assumption.
Qed.

(** Normalization never divides by zero. *)
Lemma normalize_total (v : t) : exists n, normalize v = Some n.
Proof.
  destruct (Req_dec_T (mag v) 0) as [E|E].
  - apply mag_eq_0 in E; subst. exists zero. apply normalize_zero.
  - eexists. apply normalize_nonzero; assumption.
Qed.

Lemma mag_normalize (v n : t) :
  mag v <> 0 -> normalize v = Some n -> mag n = 1.
Proof.
  intros H E. rewrite (normalize_nonzero v H) in E. injection E as <-.
  apply mag_mk; [lra|].
  pose proof (mag_sq v) as S. field_simplify_eq; [|assumption]. lra.
Qed.

Lemma mag_normalize_le (v n : t) : normalize v = Some n -> mag n <= 1.
Proof.
  intros E. destruct (Req_dec_T (mag v) 0) as [Z|Z].
  - pose proof (mag_eq_0 v Z); subst. rewrite normalize_zero in E.
    injection E as <-. rewrite mag_zero. lra.
  - rewrite (mag_normalize v n Z E). lra.
Qed.

Lemma limit_total (v : t) (high : R) : exists w, limit v high = Some w.
Proof.
  unfold limit. destruct (num_gt (mag v) high).
  - destruct (normalize_total v) as [n E]. rewrite E. simpl. eauto.
  - eauto.
Qed.

(** The clamp invariant. *)
Lemma limit_bound (v w : t) (high : R) :
  0 <= high -> limit v high = Some w -> mag w <= high.
Proof.
  intros Hh. unfold limit. destruct (num_gt (mag v) high) eqn:G.
  - apply num_gt_true in G.
    destruct (normalize v) as [n|] eqn:E; simpl; [|discriminate].
    intros W; injection W as <-.
    rewrite mag_mult by assumption.
    assert (mag v <> 0) as NZ by lra.
    rewrite (mag_normalize v n NZ E). lra.
  - apply num_gt_false in G. intros W; injection W as <-. assumption.
Qed.

Lemma limit_zero (high : R) : 0 <= high -> limit zero high = Some zero.
Proof.
  intros H. unfold limit. rewrite mag_zero.
  replace (num_gt 0 high) with false; [reflexivity|].
  symmetry; apply num_gt_false; assumption.
Qed.

Lemma distance_self (v : t) : distance v v = 0.
Proof.
  unfold distance.
  replace ((x v - x v) * (x v - x v) + (y v - y v) * (y v - y v)) with 0 by ring.
  apply sqrt_0.
Qed.

End VectorFacts.

(** ** Initialisation and accessors *)

Module InitFacts.
Import Agent.

(** C8: with the corresponding options omitted, [init] sets
    [followMouse = false], [maxSteeringForce = 10],
    [desiredSeparation = 2 * width], [separateStrength = 0.3],
    [alignStrength = 0.2] and [cohesionStrength = 0.1].  Each default
    depends on its own option only. *)
Theorem init_defaults (m : Mover.t) (options : Options.t) :
  (Options.followMouse options = None -> followMouse (init m options) = false)
  /\ (Options.maxSteeringForce options = None ->
      maxSteeringForce (init m options) = 10)
  /\ (Options.desiredSeparation options = None ->
      desiredSeparation (init m options) = 2 * width (init m options))
  /\ (Options.separateStrength options = None ->
      separateStrength (init m options) = 3 / 10)
  /\ (Options.alignStrength options = None ->
      alignStrength (init m options) = 2 / 10)
  /\ (Options.cohesionStrength options = None ->
      cohesionStrength (init m options) = 1 / 10).
Proof.
  unfold init; cbn.
  repeat split; intros ->; cbn; try reflexivity.
  unfold width; cbn. ring.
Qed.

Lemma init_defaults_witness :
  followMouse Scenario.plain_agent = false
  /\ maxSteeringForce Scenario.plain_agent = 10
  /\ desiredSeparation Scenario.plain_agent = 2 * width Scenario.plain_agent
  /\ separateStrength Scenario.plain_agent = 3 / 10
  /\ alignStrength Scenario.plain_agent = 2 / 10
  /\ cohesionStrength Scenario.plain_agent = 1 / 10.
Proof.
  pose proof (init_defaults
                (Scenario.mover "Agent1" Vector.zero Vector.zero 0)
                Options.empty) as H.
  repeat split; apply H; reflexivity.
Defined.

(** C9: [getVelocity()] without an argument returns a vector with the
    components of the agent's location, whatever its velocity is;
    [getVelocity('x')] and [getVelocity('y')] return the components of
    the velocity. *)
Theorem getVelocity_returns_location (a : t) :
  getVelocity a None
    = RVector (Vector.mk (Vector.x (location a)) (Vector.y (location a)))
  /\ getVelocity a (Some "x") = RNumber (Vector.x (velocity a))
  /\ getVelocity a (Some "y") = RNumber (Vector.y (velocity a)).
Proof. repeat split. Qed.

(** C10: after [init] the border radius is 100 when
    [options.borderRadius] is truthy or there is a sensor, and 0
    otherwise; no other value is assigned. *)
Theorem init_borderRadius (m : Mover.t) (options : Options.t) :
  (borderRadius (init m options) = 100 \/ borderRadius (init m options) = 0)
  /\ (truthy_opt (Options.borderRadius options) = true
      \/ sensors (init m options) <> [] ->
      borderRadius (init m options) = 100)
  /\ (truthy_opt (Options.borderRadius options) = false
      /\ sensors (init m options) = [] ->
      borderRadius (init m options) = 0).
Proof.
  unfold init; cbn.
  destruct (truthy_opt (Options.borderRadius options)); cbn.
  - repeat split; auto. intros [? _]; discriminate.
  - destruct (or_else (fun _ => true) (Options.sensors options) []) eqn:S; cbn.
    + repeat split; auto. intros [?|?]; [discriminate | contradiction].
    + repeat split; auto. intros [_ ?]; discriminate.
Qed.

Lemma init_borderRadius_witness :
  truthy_opt (Options.borderRadius Scenario.round_options) = true
  /\ borderRadius (init (Scenario.mover "Agent1" Vector.zero Vector.zero 0)
                        Scenario.round_options) = 100.
Proof.
  assert (truthy_opt (Options.borderRadius Scenario.round_options) = true) as H
      by (apply num_nonzero_true; simpl; lra).
  split; [exact H|].
  apply (init_borderRadius (Scenario.mover "Agent1" Vector.zero Vector.zero 0)
                           Scenario.round_options).
  left. exact H.
Defined.

End InitFacts.

(** ** Steering behaviours *)

Module SteeringFacts.
Import Agent Contributions VectorFacts.

Lemma bind_some {A B : Type} (m : option A) (k : A -> option B) (b : B) :
  bind m k = Some b -> exists a, m = Some a /\ k a = Some b.
Proof. destruct m as [a|]; simpl; [eauto | discriminate]. Qed.

Lemma same_kind_other_self (a : t) : same_kind_other a a = false.
Proof.
  unfold same_kind_other. rewrite (String.eqb_refl (id a)).
  apply andb_false_r.
Qed.

Lemma INR_count_nonzero (count : nat) : (0 < count)%nat -> INR count <> 0.
Proof. intros H. apply not_0_INR. lia. Qed.

(** *** Every behaviour returns a value *)

Lemma _seek_total (a : t) (target : Target.t) : exists f, _seek a target = Some f.
Proof.
  unfold _seek.
  destruct (normalize_total (Vector.sub (Target.location target) (location a)))
    as [n ->]; simpl.
  apply limit_total.
Qed.

Lemma follow_total (a : t) (target : Target.t) : exists f, follow a target = Some f.
Proof. unfold follow. apply limit_total. Qed.

Lemma steer_from_sum_total (a : t) (sum : Vector.t) (count : nat) :
  (0 < count)%nat -> exists f, steer_from_sum a sum count = Some f.
Proof.
  intros H. unfold steer_from_sum.
  rewrite (div_some sum _ (INR_count_nonzero count H)); simpl.
  match goal with |- context [Vector.normalize ?v] =>
    destruct (normalize_total v) as [n ->] end; simpl.
  apply limit_total.
Qed.

Lemma separate_loop_total (a : t) (elements : list t) :
  forall sum count, exists s c, separate_loop a elements sum count = Some (s, c).
Proof.
  induction elements as [|element rest IH]; intros sum count; simpl.
  - eauto.
  - destruct (same_kind_other a element); [|apply IH].
    destruct (num_gt _ 0) eqn:G; simpl; [|apply IH].
    destruct (num_lt _ (desiredSeparation a)); [|apply IH].
    apply num_gt_true in G.
    destruct (normalize_total (Vector.VectorSub (location a) (location element)))
      as [n ->]; simpl.
    rewrite div_some by lra; simpl.
    apply IH.
Qed.

Lemma separate_total (a : t) (elements : list t) :
  exists f, separate a elements = Some f.
Proof.
  unfold separate.
  destruct (separate_loop_total a elements Vector.zero 0%nat) as (s & c & ->); simpl.
  destruct (0 <? c)%nat eqn:C; [|eauto].
  apply steer_from_sum_total. apply Nat.ltb_lt; assumption.
Qed.

Lemma align_total (a : t) (elements : list t) :
  exists f, align a elements = Some f.
Proof.
  unfold align.
  destruct (align_loop a elements Vector.zero 0%nat) as [s c].
  destruct (0 <? c)%nat eqn:C; [|eauto].
  apply steer_from_sum_total. apply Nat.ltb_lt; assumption.
Qed.

Lemma cohesion_total (a : t) (elements : list t) :
  exists f, cohesion a elements = Some f.
Proof.
  unfold cohesion.
  destruct (cohesion_loop a elements Vector.zero 0%nat) as [s c].
  destruct (0 <? c)%nat eqn:C; [|eauto].
  apply Nat.ltb_lt in C.
  rewrite (div_some s _ (INR_count_nonzero c C)); simpl.
  match goal with |- context [Vector.normalize ?v] =>
    destruct (normalize_total v) as [n ->] end; simpl.
  apply limit_total.
Qed.

(** *** The clamp bounds every steering force *)

Lemma zero_bound (high : R) : 0 <= high -> Vector.mag Vector.zero <= high.
Proof. rewrite mag_zero; auto. Qed.

Lemma _seek_bound (a : t) (target : Target.t) (f : Vector.t) :
  0 <= maxSteeringForce a -> _seek a target = Some f ->
  Vector.mag f <= maxSteeringForce a.
Proof.
  intros H E. unfold _seek in E.
  apply bind_some in E as (n & _ & E).
  eapply limit_bound; eassumption.
Qed.

Lemma follow_bound (a : t) (target : Target.t) (f : Vector.t) :
  0 <= maxSteeringForce a -> follow a target = Some f ->
  Vector.mag f <= maxSteeringForce a.
Proof. intros H E. unfold follow in E. eapply limit_bound; eassumption. Qed.

Lemma steer_from_sum_bound (a : t) (sum : Vector.t) (count : nat) (f : Vector.t) :
  0 <= maxSteeringForce a -> steer_from_sum a sum count = Some f ->
  Vector.mag f <= maxSteeringForce a.
Proof.
  intros H E. unfold steer_from_sum in E.
  apply bind_some in E as (s & _ & E).
  apply bind_some in E as (n & _ & E).
  eapply limit_bound; eassumption.
Qed.

Lemma separate_bound (a : t) (elements : list t) (f : Vector.t) :
  0 <= maxSteeringForce a -> separate a elements = Some f ->
  Vector.mag f <= maxSteeringForce a.
Proof.
  intros H E. unfold separate in E.
  apply bind_some in E as ([s c] & _ & E).
  destruct (0 <? c)%nat.
  - eapply steer_from_sum_bound; eassumption.
  - injection E as <-. apply zero_bound; assumption.
Qed.

Lemma align_bound (a : t) (elements : list t) (f : Vector.t) :
  0 <= maxSteeringForce a -> align a elements = Some f ->
  Vector.mag f <= maxSteeringForce a.
Proof.
  intros H E. unfold align in E.
  destruct (align_loop a elements Vector.zero 0%nat) as [s c].
  destruct (0 <? c)%nat.
  - eapply steer_from_sum_bound; eassumption.
  - injection E as <-. apply zero_bound; assumption.
Qed.

Lemma cohesion_bound (a : t) (elements : list t) (f : Vector.t) :
  0 <= maxSteeringForce a -> cohesion a elements = Some f ->
  Vector.mag f <= maxSteeringForce a.
Proof.
  intros H E. unfold cohesion in E.
  destruct (cohesion_loop a elements Vector.zero 0%nat) as [s c].
  destruct (0 <? c)%nat.
  - apply bind_some in E as (s' & _ & E).
    apply bind_some in E as (n & _ & E).
    eapply limit_bound; eassumption.
  - injection E as <-. apply zero_bound; assumption.
Qed.

(** C3: with [maxSteeringForce >= 0], each of [_seek], [follow],
    [separate], [align] and [cohesion] returns a vector whose magnitude
    is at most [maxSteeringForce], for every target and every list of
    elements. *)
Theorem steering_clamped (a : t) :
  0 <= maxSteeringForce a ->
  (forall target, bounded_result (_seek a target) (maxSteeringForce a))
  /\ (forall target, bounded_result (follow a target) (maxSteeringForce a))
  /\ (forall elements, bounded_result (separate a elements) (maxSteeringForce a))
  /\ (forall elements, bounded_result (align a elements) (maxSteeringForce a))
  /\ (forall elements, bounded_result (cohesion a elements) (maxSteeringForce a)).
Proof.
  intros H. unfold bounded_result. repeat split.
  - intros target. destruct (_seek_total a target) as [f E].
    exists f; split; [assumption | eapply _seek_bound; eassumption].
  - intros target. destruct (follow_total a target) as [f E].
    exists f; split; [assumption | eapply follow_bound; eassumption].
  - intros elements. destruct (separate_total a elements) as [f E].
    exists f; split; [assumption | eapply separate_bound; eassumption].
  - intros elements. destruct (align_total a elements) as [f E].
    exists f; split; [assumption | eapply align_bound; eassumption].
  - intros elements. destruct (cohesion_total a elements) as [f E].
    exists f; split; [assumption | eapply cohesion_bound; eassumption].
Qed.

End SteeringFacts.

(** ** Degenerate neighbourhoods *)

Module FlockFacts.
Import Agent VectorFacts SteeringFacts.

Lemma zero_distance_excluded (a element : t) :
  location element = location a ->
  num_gt (Vector.distance (location a) (location element)) 0 = false.
Proof.
  intros ->. rewrite distance_self. apply num_gt_false. lra.
Qed.

Lemma separate_loop_same_location (a : t) (elements : list t) :
  Forall (fun e => location e = location a) elements ->
  forall sum count, separate_loop a elements sum count = Some (sum, count).
Proof.
  induction 1 as [|element rest Hloc _ IH]; intros sum count; simpl.
  - reflexivity.
  - rewrite (zero_distance_excluded a element Hloc); simpl.
    destruct (same_kind_other a element); apply IH.
Qed.

Lemma align_loop_same_location (a : t) (elements : list t) :
  Forall (fun e => location e = location a) elements ->
  forall sum count, align_loop a elements sum count = (sum, count).
Proof.
  induction 1 as [|element rest Hloc _ IH]; intros sum count; simpl.
  - reflexivity.
  - rewrite (zero_distance_excluded a element Hloc); simpl. apply IH.
Qed.

Lemma cohesion_loop_same_location (a : t) (elements : list t) :
  Forall (fun e => location e = location a) elements ->
  forall sum count, cohesion_loop a elements sum count = (sum, count).
Proof.
  induction 1 as [|element rest Hloc _ IH]; intros sum count; simpl.
  - reflexivity.
  - rewrite (zero_distance_excluded a element Hloc); simpl. apply IH.
Qed.

Lemma separate_loop_only_self (a : t) (elements : list t) :
  Forall (fun e => e = a) elements ->
  forall sum count, separate_loop a elements sum count = Some (sum, count).
Proof.
  induction 1 as [|element rest -> _ IH]; intros sum count; simpl.
  - reflexivity.
  - rewrite same_kind_other_self. apply IH.
Qed.

Lemma only_self_same_location (a : t) (elements : list t) :
  Forall (fun e => e = a) elements ->
  Forall (fun e => location e = location a) elements.
Proof. intros H. eapply Forall_impl; [|exact H]. intros e ->; reflexivity. Qed.

(** C4: for two agents of the same kind at the same location, with
    [desiredSeparation > 0], the neighbour passes the kind test and the
    [d < desiredSeparation] test and is kept out of the sum by [d > 0]
    alone; [separate] then accumulates nothing, divides by nothing and
    returns the zero vector.  [elements] is any list made of the two. *)
Theorem separate_same_location (a b : t) (elements : list t) :
  className a = className b -> id a <> id b -> location b = location a ->
  0 < desiredSeparation a ->
  Forall (fun e => e = a \/ e = b) elements ->
  let d := Vector.distance (location a) (location b) in
  same_kind_other a b = true
  /\ num_lt d (desiredSeparation a) = true
  /\ num_gt d 0 = false
  /\ separate_loop a elements Vector.zero 0%nat = Some (Vector.zero, 0%nat)
  /\ separate a elements = Some Vector.zero.
Proof.
  intros Hc Hi Hl Hd Hel d.
  assert (Forall (fun e => location e = location a) elements) as Hloc.
  { eapply Forall_impl; [|exact Hel]. intros e [->| ->]; auto. }
  assert (d = 0) as Hz by (unfold d; rewrite Hl; apply distance_self).
  repeat split.
  - unfold same_kind_other. rewrite Hc, String.eqb_refl; simpl.
    apply negb_true_iff, String.eqb_neq; assumption.
  - apply num_lt_true. lra.
  - apply num_gt_false. lra.
  - apply separate_loop_same_location; assumption.
  - unfold separate. rewrite separate_loop_same_location by assumption.
    reflexivity.
Qed.

(** C5: on a list of elements that is empty or holds only the agent
    itself, [separate], [align] and [cohesion] return the zero vector. *)
Theorem flocking_alone_is_zero (a : t) (elements : list t) :
  Forall (fun e => e = a) elements ->
  separate a elements = Some Vector.zero
  /\ align a elements = Some Vector.zero
  /\ cohesion a elements = Some Vector.zero.
Proof.
  intros H. pose proof (only_self_same_location a elements H) as Hloc.
  repeat split.
  - unfold separate. rewrite separate_loop_only_self by assumption. reflexivity.
  - unfold align. rewrite align_loop_same_location by assumption. reflexivity.
  - unfold cohesion. rewrite cohesion_loop_same_location by assumption. reflexivity.
Qed.

End FlockFacts.

(** ** Runs of [applyForces] *)

Module RunFacts.
Import Agent Contributions VectorFacts SteeringFacts.

Lemma retarget_same (a : t) : retarget a (acceleration a) (sensors a) = a.
Proof. destruct a as [[] ]; reflexivity. Qed.

Lemma set_sensors_retarget (a : t) (sens : list Sensor.t) :
  set_sensors a sens = retarget a (acceleration a) sens.
Proof. destruct a as [[] ]; reflexivity. Qed.

Lemma set_body_retarget (a : t) (acc : Vector.t) :
  set_body a (Mover.set_acceleration (body a) acc) = retarget a acc (sensors a).
Proof. reflexivity. Qed.

Lemma frame_refl (a : t) : frame a a.
Proof. exists (acceleration a), (sensors a). rewrite retarget_same. auto. Qed.

Lemma frame_trans (a b c : t) : frame a b -> frame b c -> frame a c.
Proof.
  intros (acc & sens & Hb & Hs) (acc' & sens' & Hc & Hs').
  exists acc', sens'. subst b c. split; [reflexivity|].
  rewrite Hs'. exact Hs.
Qed.

Lemma frame_mass (a a' : t) : frame a a' -> mass a' = mass a.
Proof. intros (acc & sens & -> & _). reflexivity. Qed.

Lemma frame_activated (a a' : t) :
  frame a a' -> map Sensor.activated (sensors a') = map Sensor.activated (sensors a).
Proof. intros (acc & sens & -> & H). exact H. Qed.

Lemma total_app (l l' : list R) : total (l ++ l') = total l + total l'.
Proof.
  induction l as [|h l IH]; simpl.
  - ring.
  - fold (total (l ++ l')); fold (total l). rewrite IH. ring.
Qed.

Lemma accumulate_nil (m : R) (acc : Vector.t) : accumulate m acc [] = acc.
Proof. destruct acc as [ax ay]. unfold accumulate; simpl. f_equal; ring. Qed.

Lemma accumulate_app (m : R) (acc : Vector.t) (l l' : list (Behavior * Vector.t)) :
  accumulate m acc (l ++ l') = accumulate m (accumulate m acc l) l'.
Proof.
  unfold accumulate; simpl. rewrite !map_app, !total_app. f_equal; ring.
Qed.

Lemma extends_refl (r : Run) : extends r [] r.
Proof.
  repeat split.
  - rewrite app_nil_r; reflexivity.
  - apply frame_refl.
  - rewrite accumulate_nil; reflexivity.
Qed.

Lemma extends_trans (r1 r2 r3 : Run) (e1 e2 : list (Behavior * Vector.t)) :
  extends r1 e1 r2 -> extends r2 e2 r3 -> extends r1 (e1 ++ e2) r3.
Proof.
  intros (L1 & F1 & A1) (L2 & F2 & A2). repeat split.
  - rewrite L2, L1, app_assoc. reflexivity.
  - eapply frame_trans; eassumption.
  - rewrite A2, A1, (frame_mass _ _ F1), accumulate_app. reflexivity.
Qed.

Lemma extends_mass (r r' : Run) (ext : list (Behavior * Vector.t)) :
  extends r ext r' -> mass (self r') = mass (self r).
Proof. intros (_ & F & _). apply frame_mass; assumption. Qed.

(** One call of [applyForce] on a body of nonzero mass. *)
Lemma apply_extends (b : Behavior) (f : Vector.t) (r : Run) :
  mass (self r) <> 0 ->
  exists r', apply b f r = Some r'
             /\ extends r [(b, f)] r'
             /\ sensors (self r') = sensors (self r).
Proof.
  intros Hm. unfold apply, Mover.applyForce.
  fold (mass (self r)). rewrite (div_some f _ Hm); simpl.
  eexists; split; [reflexivity|]. repeat split; simpl.
  - eexists _, (sensors (self r)). split; [apply set_body_retarget | reflexivity].
  - unfold accumulate, acceleration, Vector.add; simpl. f_equal; ring.
Qed.

(** A force that is computed, then applied. *)
Lemma compute_apply (b : Behavior) (force : option Vector.t) (f : Vector.t) (r : Run) :
  mass (self r) <> 0 -> force = Some f ->
  exists r', (f <- force ;; apply b f r) = Some r'
             /\ extends r (one b force) r'
             /\ sensors (self r') = sensors (self r).
Proof. intros Hm ->. simpl. apply apply_extends; assumption. Qed.

Lemma tagged_app (b : Behavior) (l l' : list (Behavior * Vector.t)) :
  tagged b l -> tagged b l' -> tagged b (l ++ l').
Proof. intros; apply Forall_app; auto. Qed.

Lemma tagged_one (b : Behavior) (f : Vector.t) : tagged b [(b, f)].
Proof. repeat constructor. Qed.

Section Loops.
Context {Item : Type} (E : Externals Item) (sys : System Item).

Lemma liquid_loop_extends (a : t) (list : list Item) :
  forall r, mass (self r) <> 0 -> frame a (self r) ->
  exists r' ext, liquid_loop E list r = Some r'
                 /\ extends r ext r'
                 /\ per_item a Drag (other_inside E) (drag E) list ext
                 /\ sensors (self r') = sensors (self r).
Proof.
  induction list as [|liquid rest IH]; intros r Hm F; simpl.
  - exists r, []. split; [reflexivity|]. split; [apply extends_refl|].
    split; [constructor | reflexivity].
  - change (negb (id (self r) =? item_id E liquid)%string
            && isInside E (self r) liquid)
      with (other_inside E (self r) liquid).
    destruct (other_inside E (self r) liquid) eqn:K.
    + destruct (apply_extends Drag (drag E (self r) liquid) r Hm)
        as (r1 & -> & X1 & S1); simpl.
      destruct (IH r1) as (r' & ext & -> & X & T & S).
      { rewrite (extends_mass _ _ _ X1); assumption. }
      { eapply frame_trans; [exact F | apply X1]. }
      exists r', ([(Drag, drag E (self r) liquid)] ++ ext).
      split; [reflexivity|]. split; [eapply extends_trans; eassumption|].
      split; [apply per_item_keep; assumption | congruence].
    + simpl. destruct (IH r Hm F) as (r' & ext & -> & X & T & S).
      exists r', ext. split; [reflexivity|]. split; [assumption|].
      split; [eapply per_item_skip; eassumption | assumption].
Qed.

Lemma attract_loop_extends (a : t) (b : Behavior) (list : list Item) :
  forall r, mass (self r) <> 0 -> frame a (self r) ->
  exists r' ext, attract_loop E b list r = Some r'
                 /\ extends r ext r'
                 /\ per_item a b (other E) (attract E) list ext
                 /\ sensors (self r') = sensors (self r).
Proof.
  induction list as [|item rest IH]; intros r Hm F; simpl.
  - exists r, []. split; [reflexivity|]. split; [apply extends_refl|].
    split; [constructor | reflexivity].
  - change (negb (id (self r) =? item_id E item)%string)
      with (other E (self r) item).
    destruct (other E (self r) item) eqn:K.
    + destruct (apply_extends b (attract E (self r) item) r Hm)
        as (r1 & -> & X1 & S1); simpl.
      destruct (IH r1) as (r' & ext & -> & X & T & S).
      { rewrite (extends_mass _ _ _ X1); assumption. }
      { eapply frame_trans; [exact F | apply X1]. }
      exists r', ([(b, attract E (self r) item)] ++ ext).
      split; [reflexivity|]. split; [eapply extends_trans; eassumption|].
      split; [apply per_item_keep; assumption | congruence].
    + simpl. destruct (IH r Hm F) as (r' & ext & -> & X & T & S).
      exists r', ext. split; [reflexivity|]. split; [assumption|].
      split; [eapply per_item_skip; eassumption | assumption].
Qed.

End Loops.

Lemma existsb_activated_map (l l' : list Sensor.t) :
  map Sensor.activated l = map Sensor.activated l' ->
  existsb Sensor.activated l = existsb Sensor.activated l'.
Proof.
  revert l'; induction l as [|s l IH]; intros [|s' l']; simpl;
    try discriminate; auto.
  intros H; injection H as H1 H2. rewrite H1, (IH l' H2). reflexivity.
Qed.

Lemma frame_anySensorActivated (a a' : t) :
  frame a a' -> anySensorActivated a' = anySensorActivated a.
Proof.
  intros F. apply existsb_activated_map, frame_activated; assumption.
Qed.

(** *** What the later behaviours read is not changed by a run *)

Lemma separate_loop_retarget (a : t) (acc : Vector.t) (sens : list Sensor.t)
      (elements : list t) :
  forall sum count,
    separate_loop (retarget a acc sens) elements sum count
    = separate_loop a elements sum count.
Proof.
  induction elements as [|element rest IH]; intros sum count; [reflexivity|].
  cbn [separate_loop].
  change (same_kind_other (retarget a acc sens) element)
    with (same_kind_other a element).
  change (location (retarget a acc sens)) with (location a).
  change (desiredSeparation (retarget a acc sens)) with (desiredSeparation a).
  destruct (same_kind_other a element); [|apply IH].
  destruct (num_gt _ 0 && num_lt _ (desiredSeparation a)); [|apply IH].
  destruct (Vector.normalize _) as [n|]; simpl; [|reflexivity].
  destruct (Vector.div n _) as [d|]; simpl; [|reflexivity].
  apply IH.
Qed.

Lemma align_loop_retarget (a : t) (acc : Vector.t) (sens : list Sensor.t)
      (elements : list t) :
  forall sum count,
    align_loop (retarget a acc sens) elements sum count
    = align_loop a elements sum count.
Proof.
  induction elements as [|element rest IH]; intros sum count; [reflexivity|].
  cbn [align_loop].
  change (same_kind_other (retarget a acc sens) element)
    with (same_kind_other a element).
  change (location (retarget a acc sens)) with (location a).
  change (width (retarget a acc sens)) with (width a).
  destruct (num_gt _ 0 && num_lt _ (width a * 2)); [|apply IH].
  destruct (same_kind_other a element); apply IH.
Qed.

Lemma cohesion_loop_retarget (a : t) (acc : Vector.t) (sens : list Sensor.t)
      (elements : list t) :
  forall sum count,
    cohesion_loop (retarget a acc sens) elements sum count
    = cohesion_loop a elements sum count.
Proof.
  induction elements as [|element rest IH]; intros sum count; [reflexivity|].
  cbn [cohesion_loop].
  change (same_kind_other (retarget a acc sens) element)
    with (same_kind_other a element).
  change (location (retarget a acc sens)) with (location a).
  destruct (num_gt _ 0 && num_lt _ 10); [|apply IH].
  destruct (same_kind_other a element); apply IH.
Qed.

Lemma separate_frame (a a' : t) (elements : list t) :
  frame a a' -> separate a' elements = separate a elements.
Proof.
  intros (acc & sens & -> & _). unfold separate.
  rewrite separate_loop_retarget. reflexivity.
Qed.

Lemma align_frame (a a' : t) (elements : list t) :
  frame a a' -> align a' elements = align a elements.
Proof.
  intros (acc & sens & -> & _). unfold align.
  rewrite align_loop_retarget. reflexivity.
Qed.

Lemma cohesion_frame (a a' : t) (elements : list t) :
  frame a a' -> cohesion a' elements = cohesion a elements.
Proof.
  intros (acc & sens & -> & _). unfold cohesion.
  rewrite cohesion_loop_retarget. reflexivity.
Qed.

Lemma motor_log_frame (a a' : t) : frame a a' -> motor_log a' = motor_log a.
Proof.
  intros F. unfold motor_log. rewrite (frame_anySensorActivated a a' F).
  destruct F as (acc & sens & -> & _). reflexivity.
Qed.

Lemma seek_log_frame (a a' : t) : frame a a' -> seek_log a' = seek_log a.
Proof. intros (acc & sens & -> & _). reflexivity. Qed.

Lemma flow_log_frame (a a' : t) : frame a a' -> flow_log a' = flow_log a.
Proof. intros (acc & sens & -> & _). reflexivity. Qed.

Lemma motor_force_total (a : t) : exists f, motor_force a = Some f.
Proof.
  unfold motor_force.
  destruct (normalize_total (Vector.clone (velocity a))) as [n ->]; simpl.
  destruct (num_gt _ _); eauto.
Qed.

Lemma one_tagged (b : Behavior) (force : option Vector.t) : tagged b (one b force).
Proof. destruct force; simpl; [apply tagged_one | constructor]. Qed.

Section Steps.
Context {Item : Type} (E : Externals Item) (sys : System Item).

Lemma pointer_log_frame (a a' : t) :
  frame a a' -> pointer_log sys a' = pointer_log sys a.
Proof. intros (acc & sens & -> & _). reflexivity. Qed.

Lemma flock_log_frame (a a' : t) :
  frame a a' -> flock_log sys a' = flock_log sys a.
Proof.
  intros F. unfold flock_log.
  rewrite (separate_frame a a' _ F), (align_frame a a' _ F),
    (cohesion_frame a a' _ F).
  destruct F as (acc & sens & -> & _). reflexivity.
Qed.

Lemma sensor_loop_extends (a : t) (todo : list Sensor.t) :
  forall i done r sa,
    mass (self r) <> 0 -> frame a (self r) -> sensors (self r) = done ++ todo ->
    exists r' ext,
      sensor_loop E i done todo r sa
      = Some (r', sa || existsb Sensor.activated todo)
      /\ extends r ext r'
      /\ per_item a SensorForce sensor_activated (sensor_force E)
                  (indexed i todo) ext.
Proof.
  induction todo as [|sensor rest IH]; intros i done r sa Hm F Hs.
  - exists r, []. simpl. rewrite orb_false_r.
    split; [reflexivity|]. split; [apply extends_refl | constructor].
  - cbn [sensor_loop existsb]. cbv zeta.
    set (sensor' := reposition E (self r) i sensor).
    assert (Sensor.activated sensor' = Sensor.activated sensor) as Hact.
    { unfold sensor', reposition. destruct (0 <? i)%nat; reflexivity. }
    set (rmid := mkRun (set_sensors (self r) (done ++ sensor' :: rest)) (applied r)).
    assert (extends r [] rmid) as Xmid.
    { split; [simpl; rewrite app_nil_r; reflexivity|]. split.
      - exists (acceleration (self r)), (done ++ sensor' :: rest).
        split; [apply set_sensors_retarget|].
        rewrite Hs, !map_app. simpl. rewrite Hact. reflexivity.
      - rewrite accumulate_nil. reflexivity. }
    assert (frame a (self rmid)) as Fmid
        by (eapply frame_trans; [exact F | apply Xmid]).
    change (indexed i (sensor :: rest))
      with ((i, sensor) :: indexed (S i) rest).
    rewrite Hact.
    destruct (Sensor.activated sensor) eqn:A.
    + destruct (apply_extends SensorForce
                  (getActivationForce E sensor' (self rmid)) rmid Hm)
        as (r1 & -> & X1 & S1); simpl bind.
      destruct (IH (S i) (done ++ [sensor']) r1 true) as (r' & ext & EQ & X & T).
      { rewrite (extends_mass _ _ _ X1). exact Hm. }
      { eapply frame_trans; [exact Fmid | apply X1]. }
      { rewrite S1. simpl. rewrite <- app_assoc. reflexivity. }
      exists r', ([] ++ [(SensorForce, getActivationForce E sensor' (self rmid))] ++ ext).
      rewrite orb_true_r. simpl in EQ.
      split; [exact EQ|].
      split; [eapply extends_trans; [exact Xmid|]; eapply extends_trans; eassumption|].
      exact (per_item_keep a SensorForce sensor_activated (sensor_force E)
                           (self rmid) (i, sensor) _ _ Fmid A T).
    + destruct (IH (S i) (done ++ [sensor']) rmid sa) as (r' & ext & EQ & X & T).
      { exact Hm. }
      { exact Fmid. }
      { simpl. rewrite <- app_assoc. reflexivity. }
      exists r', ([] ++ ext). simpl orb.
      split; [exact EQ|].
      split; [eapply extends_trans; eassumption|].
      exact (per_item_skip a SensorForce sensor_activated (sensor_force E)
                           (self rmid) (i, sensor) _ _ Fmid A T).
Qed.

Lemma motor_step_extends (a : t) (sa : bool) (r : Run) :
  mass a <> 0 -> frame a (self r) -> sa = anySensorActivated a ->
  exists r', motor_step sa r = Some r' /\ extends r (motor_log a) r'.
Proof.
  intros Hm F ->. rewrite <- (motor_log_frame a (self r) F).
  rewrite <- (frame_mass _ _ F) in Hm.
  rewrite <- (frame_anySensorActivated a (self r) F).
  unfold motor_step, motor_log.
  destruct (negb (anySensorActivated (self r)) && truthy (motorSpeed (self r))).
  - destruct (motor_force_total (self r)) as [f Ef].
    destruct (compute_apply Motor _ f r Hm Ef) as (r' & EQ & X & _).
    exists r'. split; assumption.
  - exists r. split; [reflexivity | apply extends_refl].
Qed.

Lemma pointer_step_extends (a : t) (r : Run) :
  mass a <> 0 -> frame a (self r) ->
  exists r', pointer_step sys r = Some r' /\ extends r (pointer_log sys a) r'.
Proof.
  intros Hm F. rewrite <- (pointer_log_frame a (self r) F).
  rewrite <- (frame_mass _ _ F) in Hm.
  unfold pointer_step, pointer_log.
  destruct (followMouse (self r) && negb (supportedFeatures_touch sys)).
  - rewrite eta.
    destruct (_seek_total (self r) (Target.mk (mouse_location sys))) as [f Ef].
    destruct (compute_apply Pointer _ f r Hm Ef) as (r' & EQ & X & _).
    exists r'. split; assumption.
  - exists r. split; [reflexivity | apply extends_refl].
Qed.

Lemma seek_step_extends (a : t) (r : Run) :
  mass a <> 0 -> frame a (self r) ->
  exists r', seek_step r = Some r' /\ extends r (seek_log a) r'.
Proof.
  intros Hm F. rewrite <- (seek_log_frame a (self r) F).
  rewrite <- (frame_mass _ _ F) in Hm.
  unfold seek_step, seek_log.
  destruct (seekTarget (self r)) as [target|].
  - destruct (_seek_total (self r) target) as [f Ef].
    destruct (compute_apply Seek _ f r Hm Ef) as (r' & EQ & X & _).
    exists r'. split; assumption.
  - exists r. split; [reflexivity | apply extends_refl].
Qed.

Lemma flow_step_extends (a : t) (r : Run) :
  mass a <> 0 -> frame a (self r) ->
  exists r', flow_step r = Some r' /\ extends r (flow_log a) r'.
Proof.
  intros Hm F. rewrite <- (flow_log_frame a (self r) F).
  rewrite <- (frame_mass _ _ F) in Hm.
  unfold flow_step, flow_log, agent_column, agent_sample.
  destruct (flowField (self r)) as [ff|];
    [|exists r; split; [reflexivity | apply extends_refl]].
  cbv zeta.
  destruct (column ff _) as [fcol|];
    [|exists r; split; [reflexivity | apply extends_refl]].
  destruct (sample fcol _) as [loc|]; unfold followTarget; rewrite eta.
  - destruct (follow_total (self r) (Target.mk loc)) as [f Ef].
    destruct (compute_apply Flow _ f r Hm Ef) as (r' & EQ & X & _).
    exists r'. split; assumption.
  - destruct (follow_total (self r) (Target.mk (location (self r)))) as [f Ef].
    destruct (compute_apply Flow _ f r Hm Ef) as (r' & EQ & X & _).
    exists r'. split; assumption.
Qed.

End Steps.

Lemma frame_flocking (a a' : t) :
  frame a a' ->
  flocking a' = flocking a
  /\ separateStrength a' = separateStrength a
  /\ alignStrength a' = alignStrength a
  /\ cohesionStrength a' = cohesionStrength a.
Proof. intros (acc & sens & -> & _). repeat split. Qed.

Section Assembly.
Context {Item : Type} (E : Externals Item) (sys : System Item).

Lemma flock_step_extends (a : t) (r : Run) :
  mass a <> 0 -> frame a (self r) ->
  exists r', flock_step sys r = Some r' /\ extends r (flock_log sys a) r'.
Proof.
  intros Hm F. unfold flock_step, flock_log.
  destruct (frame_flocking a (self r) F) as (-> & Hs & _).
  destruct (flocking a);
    [|exists r; split; [reflexivity | apply extends_refl]].
  unfold flock.
  rewrite (separate_frame a (self r) _ F), Hs.
  destruct (separate_total a (allAgents sys)) as [f1 ->]; simpl.
  destruct (apply_extends Separate (Vector.mult f1 (separateStrength a)) r)
    as (r1 & -> & X1 & _); simpl.
  { rewrite (frame_mass _ _ F); exact Hm. }
  assert (frame a (self r1)) as F1
      by (eapply frame_trans; [exact F | apply X1]).
  destruct (frame_flocking a (self r1) F1) as (_ & _ & Ha & _).
  rewrite (align_frame a (self r1) _ F1), Ha.
  destruct (align_total a (allAgents sys)) as [f2 ->]; simpl.
  destruct (apply_extends Align (Vector.mult f2 (alignStrength a)) r1)
    as (r2 & -> & X2 & _); simpl.
  { rewrite (frame_mass _ _ F1); exact Hm. }
  assert (frame a (self r2)) as F2
      by (eapply frame_trans; [exact F1 | apply X2]).
  destruct (frame_flocking a (self r2) F2) as (_ & _ & _ & Hc).
  rewrite (cohesion_frame a (self r2) _ F2), Hc.
  destruct (cohesion_total a (allAgents sys)) as [f3 ->]; simpl.
  destruct (apply_extends Cohesion (Vector.mult f3 (cohesionStrength a)) r2)
    as (r3 & -> & X3 & _).
  { rewrite (frame_mass _ _ F2); exact Hm. }
  exists r3. split; [reflexivity|].
  exact (extends_trans _ _ _ _ _ X1 (extends_trans _ _ _ _ _ X2 X3)).
Qed.

Lemma applyForces_run (a : t) :
  mass a <> 0 ->
  exists acc r Ld La Lr Ls,
    applyForces E sys a = Some (acc, r)
    /\ acc = acceleration (self r)
    /\ frame a (self r)
    /\ acceleration (self r) = accumulate (mass a) (acceleration a) (applied r)
    /\ decomposes E sys a (applied r) Ld La Lr Ls.
Proof.
  intros Hm. unfold applyForces, applyForces_from.
  set (r0 := mkRun a []).
  destruct (liquid_loop_extends E a (nonempty_cache (caches_Liquid sys)) r0 Hm
                                (frame_refl a))
    as (r1 & Ld & -> & X1 & T1 & S1); simpl bind.
  assert (mass (self r1) <> 0) as Hm1
      by (rewrite (extends_mass _ _ _ X1); exact Hm).
  destruct (attract_loop_extends E a Attract
              (nonempty_cache (caches_Attractor sys)) r1 Hm1)
    as (r2 & La & -> & X2 & T2 & S2); [apply X1|]; simpl bind.
  pose proof (extends_trans _ _ _ _ _ X1 X2) as Y2.
  assert (mass (self r2) <> 0) as Hm2
      by (rewrite (extends_mass _ _ _ X2); exact Hm1).
  destruct (attract_loop_extends E a Repel
              (nonempty_cache (caches_Repeller sys)) r2 Hm2)
    as (r3 & Lr & -> & X3 & T3 & S3); [apply Y2|]; simpl bind.
  pose proof (extends_trans _ _ _ _ _ Y2 X3) as Y3.
  assert (mass (self r3) <> 0) as Hm3
      by (rewrite (extends_mass _ _ _ X3); exact Hm2).
  assert (sensors (self r3) = sensors a) as S by (rewrite S3, S2, S1; reflexivity).
  destruct (sensor_loop_extends E a (sensors (self r3)) 0 [] r3 false Hm3)
    as (r4 & Ls & -> & X4 & T4); [apply Y3 | reflexivity |]; simpl bind.
  rewrite S in T4 |- *.
  pose proof (extends_trans _ _ _ _ _ Y3 X4) as Y4.
  destruct (motor_step_extends a (existsb Sensor.activated (sensors a)) r4 Hm)
    as (r5 & -> & X5); [apply Y4 | reflexivity |]; simpl bind.
  pose proof (extends_trans _ _ _ _ _ Y4 X5) as Y5.
  destruct (pointer_step_extends sys a r5 Hm) as (r6 & -> & X6);
    [apply Y5|]; simpl bind.
  pose proof (extends_trans _ _ _ _ _ Y5 X6) as Y6.
  destruct (seek_step_extends a r6 Hm) as (r7 & -> & X7);
    [apply Y6|]; simpl bind.
  pose proof (extends_trans _ _ _ _ _ Y6 X7) as Y7.
  destruct (flow_step_extends a r7 Hm) as (r8 & -> & X8);
    [apply Y7|]; simpl bind.
  pose proof (extends_trans _ _ _ _ _ Y7 X8) as Y8.
  destruct (flock_step_extends a r8 Hm) as (r9 & -> & X9);
    [apply Y8|]; simpl bind.
  pose proof (extends_trans _ _ _ _ _ Y8 X9) as Y9.
  destruct Y9 as (L & F & A). simpl in L, F, A.
  exists (acceleration (self r9)), r9, Ld, La, Lr, Ls.
  split; [reflexivity|]. split; [reflexivity|]. split; [exact F|].
  split; [rewrite A, L; reflexivity|].
  split; [rewrite L, <- !app_assoc; reflexivity|].
  repeat (split; [assumption|]). exact T4.
Qed.

End Assembly.

End RunFacts.

(** ** The record of a run: order, skipped behaviours, sums *)

Module LogFacts.
Import Agent Contributions VectorFacts SteeringFacts RunFacts.

Lemma entries_app (b : Behavior) (l l' : list (Behavior * Vector.t)) :
  entries b (l ++ l') = entries b l ++ entries b l'.
Proof. unfold entries. rewrite filter_app, map_app. reflexivity. Qed.

Lemma entries_ranked (b : Behavior) (lo hi : nat) (l : list (Behavior * Vector.t)) :
  ranked lo hi l -> (rank b < lo \/ hi < rank b)%nat -> entries b l = [].
Proof.
  intros H Hb. induction H as [|p l Hp _ IH]; [reflexivity|].
  unfold entries in *; simpl. unfold Behavior_eqb at 1.
  destruct (Nat.eqb_spec (rank (fst p)) (rank b)) as [e|_]; [lia | exact IH].
Qed.

Lemma tagged_ranked (b : Behavior) (l : list (Behavior * Vector.t)) :
  tagged b l -> ranked (rank b) (rank b) l.
Proof.
  intros H. eapply Forall_impl; [|exact H]. simpl; intros p ->. lia.
Qed.

Lemma ranked_weaken (lo hi lo' hi' : nat) (l : list (Behavior * Vector.t)) :
  ranked lo hi l -> (lo' <= lo)%nat -> (hi <= hi')%nat -> ranked lo' hi' l.
Proof.
  intros H ? ?. eapply Forall_impl; [|exact H]. simpl; intros; lia.
Qed.

Lemma ranked_app (lo hi : nat) (l l' : list (Behavior * Vector.t)) :
  ranked lo hi l -> ranked lo hi l' -> ranked lo hi (l ++ l').
Proof. intros; apply Forall_app; auto. Qed.

Lemma ranked_nil (lo hi : nat) : ranked lo hi [].
Proof. constructor. Qed.

Lemma ordered_app (mid : nat) (l l' : list (Behavior * Vector.t)) :
  ordered l -> ordered l' ->
  Forall (fun p => (rank (fst p) <= mid)%nat) l ->
  Forall (fun q => (mid <= rank (fst q))%nat) l' ->
  ordered (l ++ l').
Proof.
  intros Hl Hl' Hlo Hhi. induction Hl as [|p l Hl IH Hp]; simpl; [exact Hl'|].
  inversion Hlo as [|? ? Hp' Hlo']; subst.
  constructor; [apply IH; assumption|].
  apply Forall_app; split; [exact Hp|].
  eapply Forall_impl; [|exact Hhi]. simpl; intros; lia.
Qed.

Lemma tagged_ordered (b : Behavior) (l : list (Behavior * Vector.t)) :
  tagged b l -> ordered l.
Proof.
  induction 1 as [|p l Hp Hl IH]; constructor; [exact IH|].
  eapply Forall_impl; [|exact Hl]. simpl; intros q ->. rewrite Hp. lia.
Qed.

(** A block: ordered, with its ranks between [lo] and [hi]. *)
Lemma block_app (lo mid hi : nat) (l l' : list (Behavior * Vector.t)) :
  (lo <= mid <= hi)%nat ->
  ordered l /\ ranked lo mid l -> ordered l' /\ ranked mid hi l' ->
  ordered (l ++ l') /\ ranked lo hi (l ++ l').
Proof.
  intros Hm [O R] [O' R']. split.
  - apply (ordered_app mid); auto.
    + eapply Forall_impl; [|exact R]. simpl; intros; lia.
    + eapply Forall_impl; [|exact R']. simpl; intros; lia.
  - apply ranked_app; [apply (ranked_weaken lo mid) | apply (ranked_weaken mid hi)];
      auto; lia.
Qed.

Lemma block_tagged (b : Behavior) (lo hi : nat) (l : list (Behavior * Vector.t)) :
  (lo <= rank b <= hi)%nat -> tagged b l -> ordered l /\ ranked lo hi l.
Proof.
  intros H T. split; [eapply tagged_ordered; eassumption|].
  apply (ranked_weaken (rank b) (rank b)); auto using tagged_ranked; lia.
Qed.

Lemma per_item_tagged {Item : Type} (a : t) (b : Behavior)
      (keep : t -> Item -> bool) (force : t -> Item -> Vector.t)
      (items : list Item) (ext : list (Behavior * Vector.t)) :
  per_item a b keep force items ext -> tagged b ext.
Proof. induction 1; try constructor; auto. Qed.

Lemma per_item_none {Item : Type} (a : t) (b : Behavior)
      (keep : t -> Item -> bool) (force : t -> Item -> Vector.t)
      (items : list Item) (ext : list (Behavior * Vector.t)) :
  (forall this item, In item items -> keep this item = false) ->
  per_item a b keep force items ext -> ext = [].
Proof.
  intros Hk H. induction H as [|this item rest ext F K _ IH|this item rest ext F K _ IH].
  - reflexivity.
  - rewrite (Hk this item) in K by (left; reflexivity). discriminate.
  - apply IH. intros; apply Hk; right; assumption.
Qed.

Lemma per_item_empty {Item : Type} (a : t) (b : Behavior)
      (keep : t -> Item -> bool) (force : t -> Item -> Vector.t)
      (items : list Item) (ext : list (Behavior * Vector.t)) :
  is_nil items = true -> per_item a b keep force items ext -> ext = [].
Proof.
  destruct items; [|discriminate]. intros _ H.
  apply (per_item_none _ _ _ _ _ _ (fun _ _ (i : In _ []) => match i with end) H).
Qed.

Lemma no_sensor_activated (a : t) (ext : list (Behavior * Vector.t))
      {Item : Type} (E : Externals Item) :
  anySensorActivated a = false ->
  per_item a SensorForce sensor_activated (sensor_force E)
           (indexed 0 (sensors a)) ext ->
  ext = [].
Proof.
  intros H. apply per_item_none. intros this [i s] Hin.
  unfold sensor_activated; simpl.
  apply in_combine_r in Hin.
  destruct (Sensor.activated s) eqn:A; [|reflexivity].
  unfold anySensorActivated in H.
  assert (existsb Sensor.activated (sensors a) = true) as C
      by (apply existsb_exists; eauto).
  congruence.
Qed.

Lemma motor_log_tagged (a : t) : tagged Motor (motor_log a).
Proof.
  unfold motor_log. destruct (_ && _); [apply one_tagged | constructor].
Qed.

Lemma seek_log_tagged (a : t) : tagged Seek (seek_log a).
Proof.
  unfold seek_log. destruct (seekTarget a); [apply one_tagged | constructor].
Qed.

Lemma flow_log_tagged (a : t) : tagged Flow (flow_log a).
Proof.
  unfold flow_log. destruct (flowField a) as [ff|]; [|constructor].
  destruct (agent_column a ff) as [fcol|]; [|constructor].
  destruct (agent_sample a ff fcol); apply one_tagged.
Qed.

Section Log.
Context {Item : Type} (E : Externals Item) (sys : System Item).

Lemma pointer_log_tagged (a : t) : tagged Pointer (pointer_log sys a).
Proof.
  unfold pointer_log. destruct (_ && _); [apply one_tagged | constructor].
Qed.

Lemma flock_log_block (a : t) :
  ordered (flock_log sys a) /\ ranked 8 10 (flock_log sys a).
Proof.
  unfold flock_log. destruct (flocking a); [|split; constructor].
  apply (block_app 8 9 10); [lia | |].
  - apply (block_tagged Separate); [simpl; lia | apply one_tagged].
  - apply (block_app 9 9 10); [lia | |].
    + apply (block_tagged Align); [simpl; lia | apply one_tagged].
    + apply (block_tagged Cohesion); [simpl; lia | apply one_tagged].
Qed.

End Log.

End LogFacts.

(** ** applyForces *)

Module ApplyForcesFacts.
Import Agent Contributions VectorFacts SteeringFacts RunFacts LogFacts.

Lemma entries_one (b : Behavior) (f : Vector.t) : entries b (one b (Some f)) = [f].
Proof.
  unfold entries, Behavior_eqb; simpl. rewrite Nat.eqb_refl. reflexivity.
Qed.

Lemma entries_nil (b : Behavior) : entries b [] = [].
Proof. reflexivity. Qed.

Ltac silence R :=
  rewrite (entries_ranked _ _ _ _ R) by (simpl; lia).

Section Run.
Context {Item : Type} (E : Externals Item) (sys : System Item).

(** The ranks of the nine parts of a record. *)
Lemma decomposes_ranked (a : t) (log Ld La Lr Ls : list (Behavior * Vector.t)) :
  decomposes E sys a log Ld La Lr Ls ->
  ranked 0 0 Ld /\ ranked 1 1 La /\ ranked 2 2 Lr /\ ranked 3 3 Ls
  /\ ranked 4 4 (motor_log a) /\ ranked 5 5 (pointer_log sys a)
  /\ ranked 6 6 (seek_log a) /\ ranked 7 7 (flow_log a)
  /\ ranked 8 10 (flock_log sys a).
Proof.
  intros (_ & Pd & Pa & Pr & Ps).
  repeat split.
  - apply (tagged_ranked Drag), (per_item_tagged _ _ _ _ _ _ Pd).
  - apply (tagged_ranked Attract), (per_item_tagged _ _ _ _ _ _ Pa).
  - apply (tagged_ranked Repel), (per_item_tagged _ _ _ _ _ _ Pr).
  - apply (tagged_ranked SensorForce), (per_item_tagged _ _ _ _ _ _ Ps).
  - apply (tagged_ranked Motor), motor_log_tagged.
  - apply (tagged_ranked Pointer), pointer_log_tagged.
  - apply (tagged_ranked Seek), seek_log_tagged.
  - apply (tagged_ranked Flow), flow_log_tagged.
  - apply flock_log_block.
Qed.

Lemma decomposes_ordered (a : t) (log Ld La Lr Ls : list (Behavior * Vector.t)) :
  decomposes E sys a log Ld La Lr Ls -> ordered log.
Proof.
  intros D. pose proof D as (-> & Pd & Pa & Pr & Ps).
  apply (block_app 0 1 10); [lia | |].
  { apply (block_tagged Drag); [simpl; lia|].
    apply (per_item_tagged _ _ _ _ _ _ Pd). }
  apply (block_app 1 2 10); [lia | |].
  { apply (block_tagged Attract); [simpl; lia|].
    apply (per_item_tagged _ _ _ _ _ _ Pa). }
  apply (block_app 2 3 10); [lia | |].
  { apply (block_tagged Repel); [simpl; lia|].
    apply (per_item_tagged _ _ _ _ _ _ Pr). }
  apply (block_app 3 4 10); [lia | |].
  { apply (block_tagged SensorForce); [simpl; lia|].
    apply (per_item_tagged _ _ _ _ _ _ Ps). }
  apply (block_app 4 5 10); [lia | |].
  { apply (block_tagged Motor); [simpl; lia | apply motor_log_tagged]. }
  apply (block_app 5 6 10); [lia | |].
  { apply (block_tagged Pointer); [simpl; lia | apply pointer_log_tagged]. }
  apply (block_app 6 7 10); [lia | |].
  { apply (block_tagged Seek); [simpl; lia | apply seek_log_tagged]. }
  apply (block_app 7 8 10); [lia | |].
  { apply (block_tagged Flow); [simpl; lia | apply flow_log_tagged]. }
  apply flock_log_block.
Qed.

(** What the record holds for the behaviours after the loops. *)
Lemma decomposes_entries (a : t) (log Ld La Lr Ls : list (Behavior * Vector.t)) :
  decomposes E sys a log Ld La Lr Ls ->
  entries Motor log = entries Motor (motor_log a)
  /\ entries Pointer log = entries Pointer (pointer_log sys a)
  /\ entries Seek log = entries Seek (seek_log a)
  /\ entries Flow log = entries Flow (flow_log a)
  /\ (forall b, (8 <= rank b)%nat -> entries b log = entries b (flock_log sys a)).
Proof.
  intros D.
  destruct (decomposes_ranked _ _ _ _ _ _ D)
    as (Rd & Ra & Rr & Rs & Rm & Rp & Rk & Rf & Rq).
  destruct D as (-> & _).
  repeat split; [| | | | intros b Hb]; rewrite !entries_app.
  - silence Rd; silence Ra; silence Rr; silence Rs; silence Rp; silence Rk;
      silence Rf; silence Rq. simpl. rewrite app_nil_r. reflexivity.
  - silence Rd; silence Ra; silence Rr; silence Rs; silence Rm; silence Rk;
      silence Rf; silence Rq. simpl. rewrite app_nil_r. reflexivity.
  - silence Rd; silence Ra; silence Rr; silence Rs; silence Rm; silence Rp;
      silence Rf; silence Rq. simpl. rewrite app_nil_r. reflexivity.
  - silence Rd; silence Ra; silence Rr; silence Rs; silence Rm; silence Rp;
      silence Rk; silence Rq. simpl. rewrite app_nil_r. reflexivity.
  - rewrite (entries_ranked b _ _ _ Rd), (entries_ranked b _ _ _ Ra),
      (entries_ranked b _ _ _ Rr), (entries_ranked b _ _ _ Rs),
      (entries_ranked b _ _ _ Rm), (entries_ranked b _ _ _ Rp),
      (entries_ranked b _ _ _ Rk), (entries_ranked b _ _ _ Rf) by lia.
    reflexivity.
Qed.

(** A behaviour whose activating condition is false leaves no entry. *)
Lemma decomposes_silent (a : t) (log Ld La Lr Ls : list (Behavior * Vector.t))
      (b : Behavior) :
  decomposes E sys a log Ld La Lr Ls ->
  active sys a b = false -> entries b log = [].
Proof.
  intros D Hact.
  destruct (decomposes_ranked _ _ _ _ _ _ D)
    as (Rd & Ra & Rr & Rs & Rm & Rp & Rk & Rf & Rq).
  destruct D as (-> & Pd & Pa & Pr & Ps).
  rewrite !entries_app.
  assert (entries b Ld = []) as ->.
  { destruct b; try (apply (entries_ranked _ _ _ _ Rd); simpl; lia).
    simpl in Hact. apply negb_false_iff in Hact.
    rewrite (per_item_empty _ _ _ _ _ _ Hact Pd). reflexivity. }
  assert (entries b La = []) as ->.
  { destruct b; try (apply (entries_ranked _ _ _ _ Ra); simpl; lia).
    simpl in Hact. apply negb_false_iff in Hact.
    rewrite (per_item_empty _ _ _ _ _ _ Hact Pa). reflexivity. }
  assert (entries b Lr = []) as ->.
  { destruct b; try (apply (entries_ranked _ _ _ _ Rr); simpl; lia).
    simpl in Hact. apply negb_false_iff in Hact.
    rewrite (per_item_empty _ _ _ _ _ _ Hact Pr). reflexivity. }
  assert (entries b Ls = []) as ->.
  { destruct b; try (apply (entries_ranked _ _ _ _ Rs); simpl; lia).
    simpl in Hact. rewrite (no_sensor_activated a Ls E Hact Ps). reflexivity. }
  assert (entries b (motor_log a) = []) as ->.
  { destruct b; try (apply (entries_ranked _ _ _ _ Rm); simpl; lia).
    simpl in Hact. unfold motor_log. rewrite Hact. reflexivity. }
  assert (entries b (pointer_log sys a) = []) as ->.
  { destruct b; try (apply (entries_ranked _ _ _ _ Rp); simpl; lia).
    simpl in Hact. unfold pointer_log. rewrite Hact. reflexivity. }
  assert (entries b (seek_log a) = []) as ->.
  { destruct b; try (apply (entries_ranked _ _ _ _ Rk); simpl; lia).
    simpl in Hact. unfold seek_log.
    destruct (seekTarget a); [discriminate | reflexivity]. }
  assert (entries b (flow_log a) = []) as ->.
  { destruct b; try (apply (entries_ranked _ _ _ _ Rf); simpl; lia).
    simpl in Hact. unfold flow_log.
    destruct (flowField a) as [ff|]; [|reflexivity].
    destruct (agent_column a ff); [discriminate | reflexivity]. }
  assert (entries b (flock_log sys a) = []) as ->.
  { destruct b; try (apply (entries_ranked _ _ _ _ Rq); simpl; lia);
      simpl in Hact; unfold flock_log; rewrite Hact; reflexivity. }
  reflexivity.
Qed.

Lemma nonempty_cache_items {I : Type} (cache : option (list I)) :
  nonempty_cache cache = Direct.cache_items cache.
Proof. destruct cache as [[|item rest]|]; reflexivity. Qed.

Lemma reposition_placed (this : t) (i : nat) (sensor : Sensor.t) :
  reposition E this i sensor = Direct.placed E this i sensor.
Proof. unfold reposition, Direct.placed. destruct (0 <? i)%nat; reflexivity. Qed.

Lemma per_item_ext {I : Type} (a : t) (b : Behavior) (keep : t -> I -> bool)
      (force force' : t -> I -> Vector.t)
      (items : list I) (ext : list (Behavior * Vector.t)) :
  (forall this item, force this item = force' this item) ->
  per_item a b keep force items ext -> per_item a b keep force' items ext.
Proof.
  intros Hf H.
  induction H as [|this item rest ext F K _ IH|this item rest ext F K _ IH].
  - constructor.
  - rewrite Hf. apply per_item_keep; assumption.
  - eapply per_item_skip; eassumption.
Qed.

Lemma motor_log_direct (a : t) : motor_log a = Direct.motor_direct a.
Proof.
  unfold motor_log, Direct.motor_direct, motor_force, Vector.clone,
    truthy, num_nonzero, num_gt, num_lt.
  rewrite eta.
  destruct (negb (anySensorActivated a)
            && (if Req_dec_T (motorSpeed a) 0 then false else true));
    [|reflexivity].
  destruct (Vector.normalize (velocity a)) as [dir|]; simpl; [|reflexivity].
  destruct (Rlt_dec (motorSpeed a) (Vector.mag (velocity a))); reflexivity.
Qed.

Lemma flow_log_direct (a : t) : flow_log a = Direct.flow_direct a.
Proof.
  unfold flow_log, Direct.flow_direct.
  destruct (flowField a) as [ff|]; [|reflexivity].
  unfold agent_column, agent_sample, cell, num_nonzero.
  destruct (Req_dec_T (FlowField.resolution ff) 0); reflexivity.
Qed.

Lemma active_direct_agrees (a : t) (b : Behavior) :
  active sys a b = Direct.active_direct sys a b.
Proof.
  destruct b; simpl; rewrite ?nonempty_cache_items; try reflexivity.
  destruct (flowField a) as [ff|]; [|reflexivity].
  unfold agent_column, cell, num_nonzero.
  destruct (Req_dec_T (FlowField.resolution ff) 0); reflexivity.
Qed.

Lemma decomposes_to_direct (a : t) (log Ld La Lr Ls : list (Behavior * Vector.t)) :
  decomposes E sys a log Ld La Lr Ls ->
  Direct.decomposes_direct E sys a log Ld La Lr Ls.
Proof.
  intros (L & Pd & Pa & Pr & Ps).
  rewrite !nonempty_cache_items in Pd, Pa, Pr.
  rewrite motor_log_direct, flow_log_direct in L.
  split; [exact L|]. repeat (split; [assumption|]).
  apply (per_item_ext _ _ _ (sensor_force E)); [|exact Ps].
  intros this [i s]. unfold sensor_force, Direct.placed_force.
  rewrite reposition_placed. reflexivity.
Qed.

(** C7: with a nonzero mass, [applyForces] returns; the forces it
    applies come in the fixed order drag (per liquid of the cache that is
    not the agent and contains it), attractors, repellers, sensors in
    declared order, motor, pointer, seek target, flow field, flock; a
    behaviour whose activating condition is false applies nothing; the
    acceleration returned is the acceleration at the start plus the sum of
    [force / mass] over the forces applied.  The contributions and the
    conditions are stated on [Burner.System._caches], [this.sensors] and
    [flowField.field] themselves. *)
Theorem applyForces_order_and_sum (a : t) :
  mass a <> 0 ->
  exists acc r Ld La Lr Ls,
    applyForces E sys a = Some (acc, r)
    /\ Direct.decomposes_direct E sys a (applied r) Ld La Lr Ls
    /\ ordered (applied r)
    /\ (forall b, Direct.active_direct sys a b = false -> entries b (applied r) = [])
    /\ acceleration (self r) = accumulate (mass a) (acceleration a) (applied r)
    /\ acc = acceleration (self r).
Proof.
  intros Hm.
  destruct (applyForces_run E sys a Hm)
    as (acc & r & Ld & La & Lr & Ls & EQ & Hacc & F & A & D).
  exists acc, r, Ld, La, Lr, Ls.
  split; [exact EQ|]. split; [apply decomposes_to_direct; exact D|].
  split; [eapply decomposes_ordered; exact D|].
  split; [intros b Hb; eapply decomposes_silent;
          [exact D | rewrite active_direct_agrees; exact Hb]|].
  split; assumption.
Qed.

(** C6: with a nonzero [motorSpeed] and no sensor activated, exactly
    one motor force is applied: the normalized velocity scaled by
    [-motorSpeed] when the magnitude of the velocity exceeds
    [motorSpeed], and by [motorSpeed] otherwise. *)
Theorem motor_maintenance (a : t) :
  mass a <> 0 -> motorSpeed a <> 0 -> anySensorActivated a = false ->
  exists acc r dir,
    applyForces E sys a = Some (acc, r)
    /\ Vector.normalize (velocity a) = Some dir
    /\ entries Motor (applied r)
       = [Vector.mult dir (if num_gt (Vector.mag (velocity a)) (motorSpeed a)
                           then - motorSpeed a else motorSpeed a)].
Proof.
  intros Hm Hs Hn.
  destruct (applyForces_run E sys a Hm)
    as (acc & r & Ld & La & Lr & Ls & EQ & _ & _ & _ & D).
  destruct (decomposes_entries _ _ _ _ _ _ D) as (M & _).
  destruct (normalize_total (velocity a)) as [dir Hd].
  exists acc, r, dir. split; [exact EQ|]. split; [exact Hd|].
  rewrite M. unfold motor_log. rewrite Hn.
  apply num_nonzero_true in Hs. unfold truthy. rewrite Hs. simpl.
  unfold motor_force, Vector.clone. rewrite eta, Hd. simpl.
  destruct (num_gt _ _); apply entries_one.
Qed.


Lemma limit_of_zero (high : R) : Vector.limit Vector.zero high = Some Vector.zero.
Proof.
  unfold Vector.limit. destruct (num_gt _ _); [|reflexivity].
  rewrite normalize_zero; simpl. unfold Vector.mult, Vector.zero; simpl.
  do 2 f_equal; ring.
Qed.

(** C1, amended: when the cell of the agent lies in a populated column
    and has no sample, [applyForces] follows the agent's own location:
    the one force applied for the flow field is
    [follow({location: this.location})], that is
    [location * maxSpeed - velocity] clamped to [maxSteeringForce].  It
    is the zero vector when [location * maxSpeed = velocity]. *)
Theorem flow_unsampled_follows_location
        (a : t) (ff : FlowField.t) (fcol : Z -> option Vector.t) :
  mass a <> 0 -> flowField a = Some ff ->
  agent_column a ff = Some fcol -> agent_sample a ff fcol = None ->
  exists acc r f,
    applyForces E sys a = Some (acc, r)
    /\ follow a (Target.mk (location a)) = Some f
    /\ Vector.limit (Vector.sub (Vector.mult (location a) (maxSpeed a)) (velocity a))
                    (maxSteeringForce a) = Some f
    /\ entries Flow (applied r) = [f]
    /\ (Vector.mult (location a) (maxSpeed a) = velocity a -> f = Vector.zero).
Proof.
  intros Hm Hff Hcol Hrow.
  destruct (applyForces_run E sys a Hm)
    as (acc & r & Ld & La & Lr & Ls & EQ & _ & _ & _ & D).
  destruct (decomposes_entries _ _ _ _ _ _ D) as (_ & _ & _ & Fl & _).
  destruct (follow_total a (Target.mk (location a))) as [f Ef].
  exists acc, r, f.
  split; [exact EQ|]. split; [exact Ef|]. split; [exact Ef|].
  split.
  - rewrite Fl. unfold flow_log. rewrite Hff, Hcol, Hrow, Ef. apply entries_one.
  - intros Hz.
    assert (Vector.limit
              (Vector.sub (Vector.mult (location a) (maxSpeed a)) (velocity a))
              (maxSteeringForce a) = Some f) as Ef' by exact Ef.
    rewrite Hz in Ef'.
    replace (Vector.sub (velocity a) (velocity a)) with Vector.zero in Ef'
      by (unfold Vector.sub, Vector.zero; f_equal; ring).
    rewrite limit_of_zero in Ef'. congruence.
Qed.




End Run.

End ApplyForcesFacts.

(** ** The scenarios *)

Module ScenarioFacts.
Import Agent Contributions Scenario.
Import VectorFacts SteeringFacts FlockFacts RunFacts LogFacts ApplyForcesFacts.

Lemma cell_val (v res : R) (z : Z) :
  res <> 0 -> v / res - 1 < IZR z <= v / res -> cell v res = Some z.
Proof.
  intros H B. unfold cell. rewrite (proj2 (num_nonzero_true _) H).
  f_equal. symmetry. apply Int_part_spec; assumption.
Qed.

Lemma limit_keep (v : Vector.t) (high : R) :
  Vector.mag v <= high -> Vector.limit v high = Some v.
Proof.
  intros H. unfold Vector.limit.
  rewrite (proj2 (num_gt_false _ _) H). reflexivity.
Qed.

Lemma flow_agent_mass : mass flow_agent <> 0.
Proof. change (1 <> 0). lra. Qed.

Lemma flow_agent_column :
  agent_column flow_agent empty_column = Some (fun _ => None).
Proof.
  change (column empty_column (cell 3 10) = Some (fun _ => None)).
  rewrite (cell_val 3 10 0) by lra. reflexivity.
Qed.

Lemma flow_agent_sample :
  agent_sample flow_agent empty_column (fun _ => None) = None.
Proof.
  change (sample (fun _ => None) (cell 4 10) = None).
  rewrite (cell_val 4 10 0) by lra. reflexivity.
Qed.

Lemma flow_agent_follow :
  follow flow_agent (Target.mk (location flow_agent)) = Some (Vector.mk 3 4).
Proof.
  change (Vector.limit (Vector.mk (3 * 1 - 0) (4 * 1 - 0)) 10
          = Some (Vector.mk 3 4)).
  replace (3 * 1 - 0) with 3 by lra. replace (4 * 1 - 0) with 4 by lra.
  apply limit_keep. rewrite (mag_mk 3 4 5); lra.
Qed.

(** C1 fails as stated: the agent [flow_agent] at (3, 4), at rest, with
    [maxSpeed = 1] and [maxSteeringForce = 10], is in the populated and
    empty column 0 of [empty_column]; the force [applyForces] applies for
    the flow field is (3, 4), not the zero vector. *)
Lemma flow_fallback_not_zero :
  flowField flow_agent = Some empty_column
  /\ agent_column flow_agent empty_column = Some (fun _ => None)
  /\ agent_sample flow_agent empty_column (fun _ => None) = None
  /\ exists acc r,
      applyForces externals (system [flow_agent]) flow_agent = Some (acc, r)
      /\ entries Flow (applied r) = [Vector.mk 3 4]
      /\ Vector.mk 3 4 <> Vector.zero.
Proof.
  split; [reflexivity|]. split; [exact flow_agent_column|].
  split; [exact flow_agent_sample|].
  destruct (applyForces_run externals (system [flow_agent]) flow_agent flow_agent_mass)
    as (acc & r & Ld & La & Lr & Ls & EQ & _ & _ & _ & D).
  destruct (decomposes_entries _ _ _ _ _ _ _ _ D) as (_ & _ & _ & Fl & _).
  exists acc, r. split; [exact EQ|]. split.
  - rewrite Fl. unfold flow_log.
    change (flowField flow_agent) with (Some empty_column). cbv beta iota.
    rewrite flow_agent_column, flow_agent_sample, flow_agent_follow.
    apply entries_one.
  - intros H. apply (f_equal Vector.x) in H. simpl in H. lra.
Qed.

Lemma flow_unsampled_follows_location_witness :
  mass flow_agent <> 0
  /\ flowField flow_agent = Some empty_column
  /\ agent_column flow_agent empty_column = Some (fun _ => None)
  /\ agent_sample flow_agent empty_column (fun _ => None) = None
  /\ exists acc r f,
      applyForces externals (system [flow_agent]) flow_agent = Some (acc, r)
      /\ follow flow_agent (Target.mk (location flow_agent)) = Some f
      /\ Vector.limit
           (Vector.sub (Vector.mult (location flow_agent) (maxSpeed flow_agent))
                       (velocity flow_agent))
           (maxSteeringForce flow_agent) = Some f
      /\ entries Flow (applied r) = [f]
      /\ (Vector.mult (location flow_agent) (maxSpeed flow_agent)
          = velocity flow_agent -> f = Vector.zero).
Proof.
  split; [exact flow_agent_mass|]. split; [reflexivity|].
  split; [exact flow_agent_column|]. split; [exact flow_agent_sample|].
  apply (flow_unsampled_follows_location externals (system [flow_agent])
           flow_agent empty_column (fun _ => None)).
  - exact flow_agent_mass.
  - reflexivity.
  - exact flow_agent_column.
  - exact flow_agent_sample.
Defined.

Lemma distance_val (v w : Vector.t) (d : R) :
  0 <= d ->
  d * d = (Vector.x w - Vector.x v) * (Vector.x w - Vector.x v)
          + (Vector.y w - Vector.y v) * (Vector.y w - Vector.y v) ->
  Vector.distance v w = d.
Proof.
  intros Hd E. unfold Vector.distance. apply sqrt_lem_1; auto.
  apply sq_sum_nonneg.
Qed.



Lemma flock_a_mass : mass flock_a <> 0.
Proof. change (1 <> 0). lra. Qed.

Lemma flock_a_bounds :
  0 <= maxSteeringForce flock_a /\ 0 <= separateStrength flock_a
  /\ 0 <= alignStrength flock_a /\ 0 <= cohesionStrength flock_a.
Proof.
  change (0 <= 1 /\ 0 <= 2 /\ 0 <= 2 / 10 /\ 0 <= 1 / 10). lra.
Qed.



Lemma steering_clamped_witness :
  0 <= maxSteeringForce flock_a
  /\ bounded_result (separate flock_a [flock_a; flock_b]) (maxSteeringForce flock_a)
  /\ bounded_result (_seek flock_a (Target.mk (Vector.mk 10 0)))
                    (maxSteeringForce flock_a).
Proof.
  split; [exact (proj1 flock_a_bounds)|].
  destruct (steering_clamped flock_a (proj1 flock_a_bounds))
    as (Hseek & _ & Hsep & _).
  split; [apply Hsep | apply Hseek].
Defined.

Lemma flock_twin_separation : 0 < desiredSeparation flock_a.
Proof. change (0 < 10 * 2). lra. Qed.

Lemma separate_same_location_witness :
  className flock_a = className flock_twin
  /\ id flock_a <> id flock_twin
  /\ location flock_twin = location flock_a
  /\ 0 < desiredSeparation flock_a
  /\ separate_loop flock_a [flock_a; flock_twin] Vector.zero 0%nat
     = Some (Vector.zero, 0%nat)
  /\ separate flock_a [flock_a; flock_twin] = Some Vector.zero.
Proof.
  assert (id flock_a <> id flock_twin) as Hid by discriminate.
  split; [reflexivity|]. split; [exact Hid|]. split; [reflexivity|].
  split; [exact flock_twin_separation|].
  assert (Forall (fun e => e = flock_a \/ e = flock_twin) [flock_a; flock_twin])
    as Hel by (constructor; [left | constructor; [right | constructor]];
               reflexivity).
  destruct (separate_same_location flock_a flock_twin [flock_a; flock_twin]
              eq_refl Hid eq_refl flock_twin_separation Hel)
    as (_ & _ & _ & Hloop & Hsep).
  split; assumption.
Defined.

Lemma flocking_alone_is_zero_witness :
  Forall (fun e => e = flock_a) [flock_a]
  /\ separate flock_a [flock_a] = Some Vector.zero
  /\ align flock_a [flock_a] = Some Vector.zero
  /\ cohesion flock_a [flock_a] = Some Vector.zero.
Proof.
  assert (Forall (fun e => e = flock_a) [flock_a]) as H by repeat constructor.
  split; [exact H|]. exact (flocking_alone_is_zero flock_a [flock_a] H).
Defined.

Lemma motor_agent_mass : mass motor_agent <> 0.
Proof. change (1 <> 0). lra. Qed.

Lemma motor_agent_speed : motorSpeed motor_agent <> 0.
Proof. change (2 <> 0). lra. Qed.

Lemma motor_maintenance_witness :
  mass motor_agent <> 0 /\ motorSpeed motor_agent <> 0
  /\ anySensorActivated motor_agent = false
  /\ exists acc r dir,
      applyForces externals (system [motor_agent]) motor_agent = Some (acc, r)
      /\ Vector.normalize (velocity motor_agent) = Some dir
      /\ entries Motor (applied r)
         = [Vector.mult dir
              (if num_gt (Vector.mag (velocity motor_agent)) (motorSpeed motor_agent)
               then - motorSpeed motor_agent else motorSpeed motor_agent)].
Proof.
  split; [exact motor_agent_mass|]. split; [exact motor_agent_speed|].
  split; [reflexivity|].
  exact (motor_maintenance externals (system [motor_agent]) motor_agent
           motor_agent_mass motor_agent_speed eq_refl).
Defined.

End ScenarioFacts.

(** ** Neighbours *)

Module NeighbourFacts.
Import Agent Contributions Layout VectorFacts SteeringFacts.

Lemma separate_loop_neighbours (a : t) (elements : list t) :
  forall sum count,
    separate_loop a elements sum count
    = separate_loop a (filter (neighbour a (desiredSeparation a)) elements) sum count.
Proof.
  induction elements as [|element rest IH]; intros sum count; [reflexivity|].
  cbn [separate_loop filter]. unfold neighbour at 1.
  destruct (same_kind_other a element) eqn:K; cbn [andb]; [|apply IH].
  destruct (num_gt _ 0 && num_lt _ (desiredSeparation a)) eqn:D; [|apply IH].
  cbn [separate_loop]. rewrite K, D.
  destruct (Vector.normalize _) as [n|]; cbn [bind]; [|reflexivity].
  destruct (Vector.div n _) as [q|]; cbn [bind]; [|reflexivity].
  apply IH.
Qed.

Lemma align_loop_neighbours (a : t) (elements : list t) :
  forall sum count,
    align_loop a elements sum count
    = align_loop a (filter (neighbour a (width a * 2)) elements) sum count.
Proof.
  induction elements as [|element rest IH]; intros sum count; [reflexivity|].
  cbn [align_loop filter]. unfold neighbour at 1.
  destruct (same_kind_other a element) eqn:K; cbn [andb].
  - destruct (num_gt _ 0 && num_lt _ (width a * 2)) eqn:D; [|apply IH].
    cbn [align_loop]. rewrite K, D. apply IH.
  - destruct (num_gt _ 0 && num_lt _ (width a * 2)); apply IH.
Qed.

Lemma cohesion_loop_neighbours (a : t) (elements : list t) :
  forall sum count,
    cohesion_loop a elements sum count
    = cohesion_loop a (filter (neighbour a 10) elements) sum count.
Proof.
  induction elements as [|element rest IH]; intros sum count; [reflexivity|].
  cbn [cohesion_loop filter]. unfold neighbour at 1.
  destruct (same_kind_other a element) eqn:K; cbn [andb].
  - destruct (num_gt _ 0 && num_lt _ 10) eqn:D; [|apply IH].
    cbn [cohesion_loop]. rewrite K, D. apply IH.
  - destruct (num_gt _ 0 && num_lt _ 10); apply IH.
Qed.

Lemma separate_neighbours (a : t) (elements : list t) :
  separate a elements
  = separate a (filter (neighbour a (desiredSeparation a)) elements).
Proof. unfold separate. rewrite separate_loop_neighbours. reflexivity. Qed.

Lemma align_neighbours (a : t) (elements : list t) :
  align a elements = align a (filter (neighbour a (width a * 2)) elements).
Proof. unfold align. rewrite align_loop_neighbours. reflexivity. Qed.

Lemma cohesion_neighbours (a : t) (elements : list t) :
  cohesion a elements = cohesion a (filter (neighbour a 10) elements).
Proof. unfold cohesion. rewrite cohesion_loop_neighbours. reflexivity. Qed.

(** X1: [separate], [align] and [cohesion] depend on the elements only
    through the neighbours of the agent: elements of another kind, the
    agent itself, elements at distance 0 and elements at or beyond the
    radius ([desiredSeparation], [2 * width], 10) can be removed from the
    list without changing the result. *)
Theorem flocking_reads_neighbours_only (a : t) (elements : list t) :
  separate a elements
  = separate a (filter (neighbour a (desiredSeparation a)) elements)
  /\ align a elements = align a (filter (neighbour a (width a * 2)) elements)
  /\ cohesion a elements = cohesion a (filter (neighbour a 10) elements).
Proof.
  split; [apply separate_neighbours|].
  split; [apply align_neighbours | apply cohesion_neighbours].
Qed.



Lemma distance_sym (v w : Vector.t) : Vector.distance v w = Vector.distance w v.
Proof. unfold Vector.distance. f_equal. ring. Qed.

Lemma distance_sq (v w : Vector.t) :
  Vector.distance v w * Vector.distance v w
  = (Vector.x w - Vector.x v) * (Vector.x w - Vector.x v)
    + (Vector.y w - Vector.y v) * (Vector.y w - Vector.y v).
Proof. unfold Vector.distance. apply sqrt_sqrt, sq_sum_nonneg. Qed.

Lemma mag_sub_distance (v w : Vector.t) :
  Vector.mag (Vector.sub w v) = Vector.distance v w.
Proof. reflexivity. Qed.

(** Scaling by a positive factor does not change the normalization. *)
Lemma normalize_scaled (v : Vector.t) (c : R) :
  0 < c -> Vector.mag v <> 0 ->
  Vector.normalize (Vector.mk (Vector.x v * c) (Vector.y v * c))
  = Some (heading v).
Proof.
  intros Hc Hm.
  assert (Vector.mag (Vector.mk (Vector.x v * c) (Vector.y v * c)) = Vector.mag v * c)
    as M by (apply (mag_mult v c); lra).
  pose proof (mag_nonneg v) as P.
  rewrite normalize_nonzero by (rewrite M; nra).
  rewrite M. unfold heading; simpl. do 2 f_equal; field; lra.
Qed.

Lemma normalize_heading (v : Vector.t) :
  Vector.mag v <> 0 -> Vector.normalize v = Some (heading v).
Proof. intros H. rewrite normalize_nonzero by assumption. reflexivity. Qed.

Lemma heading_sub (v w : Vector.t) : heading (Vector.sub w v) = toward v w.
Proof. reflexivity. Qed.

Lemma neighbour_inv (a : t) (radius : R) (b : t) :
  neighbour a radius b = true ->
  same_kind_other a b = true
  /\ 0 < Vector.distance (location a) (location b) < radius.
Proof.
  unfold neighbour. intros H.
  apply andb_true_iff in H as [H Hr]. apply andb_true_iff in H as [K Hd].
  apply num_gt_true in Hd. apply num_lt_true in Hr. auto.
Qed.

Lemma filter_single_in {A : Type} (f : A -> bool) (l : list A) (b : A) :
  filter f l = [b] -> f b = true.
Proof.
  intros H. assert (In b (filter f l)) as I by (rewrite H; left; reflexivity).
  apply filter_In in I. tauto.
Qed.

Lemma INR_1 : INR 1 = 1.
Proof. reflexivity. Qed.

Lemma separate_one (a b : t) :
  neighbour a (desiredSeparation a) b = true ->
  separate a [b] = steer a (toward (location b) (location a)).
Proof.
  intros N. destruct (neighbour_inv _ _ _ N) as (K & Hd & Hr).
  set (d := Vector.distance (location a) (location b)) in *.
  assert (Vector.mag (Vector.VectorSub (location a) (location b)) = d) as M.
  { unfold Vector.VectorSub. rewrite mag_sub_distance. apply distance_sym. }
  unfold separate. cbn [separate_loop]. rewrite K. fold d.
  rewrite (proj2 (num_gt_true d 0) Hd), (proj2 (num_lt_true d _) Hr). cbn [andb].
  rewrite normalize_heading by (rewrite M; lra). cbn [bind].
  rewrite div_some by lra. cbn [bind Nat.ltb Nat.leb].
  unfold steer_from_sum. rewrite div_some by (rewrite INR_1; lra). cbn [bind].
  rewrite INR_1.
  match goal with |- context [Vector.normalize ?v] =>
    replace v with (Vector.mk
                      (Vector.x (Vector.VectorSub (location a) (location b)) * (/ (d * d)))
                      (Vector.y (Vector.VectorSub (location a) (location b)) * (/ (d * d))))
  end.
  2:{ unfold heading, Vector.add, Vector.zero; simpl. rewrite M.
      f_equal; field; lra. }
  rewrite normalize_scaled.
  - cbn [bind]. unfold Vector.VectorSub. rewrite heading_sub. reflexivity.
  - apply Rinv_0_lt_compat. nra.
  - rewrite M. lra.
Qed.

Lemma cohesion_one (a b : t) :
  neighbour a 10 b = true ->
  cohesion a [b] = steer a (toward (location a) (location b)).
Proof.
  intros N. destruct (neighbour_inv _ _ _ N) as (K & Hd & Hr).
  set (d := Vector.distance (location a) (location b)) in *.
  unfold cohesion. cbn [cohesion_loop]. rewrite K. fold d.
  rewrite (proj2 (num_gt_true d 0) Hd), (proj2 (num_lt_true d _) Hr). cbn [andb].
  cbn [Nat.ltb Nat.leb]. rewrite div_some by (rewrite INR_1; lra). cbn [bind].
  rewrite INR_1.
  match goal with |- context [Vector.normalize ?v] =>
    replace v with (Vector.sub (location b) (location a))
  end.
  2:{ unfold Vector.sub, Vector.add, Vector.zero; simpl. f_equal; field. }
  rewrite normalize_heading by (rewrite mag_sub_distance; fold d; lra).
  cbn [bind]. rewrite heading_sub. reflexivity.
Qed.

Lemma align_one (a b : t) (n : Vector.t) :
  neighbour a (width a * 2) b = true ->
  Vector.normalize (velocity b) = Some n ->
  align a [b] = steer a n.
Proof.
  intros N Hn. destruct (neighbour_inv _ _ _ N) as (K & Hd & Hr).
  set (d := Vector.distance (location a) (location b)) in *.
  unfold align. cbn [align_loop]. rewrite K. fold d.
  rewrite (proj2 (num_gt_true d 0) Hd), (proj2 (num_lt_true d _) Hr). cbn [andb].
  cbn [Nat.ltb Nat.leb]. unfold steer_from_sum.
  rewrite div_some by (rewrite INR_1; lra). cbn [bind]. rewrite INR_1.
  match goal with |- context [Vector.normalize ?v] =>
    replace v with (velocity b)
  end.
  2:{ destruct (velocity b) as [vx vy].
      unfold Vector.add, Vector.zero; simpl. f_equal; field. }
  rewrite Hn. reflexivity.
Qed.

(** X3: with exactly one neighbour [b] within [desiredSeparation],
    [separate] steers towards the desired velocity [maxSpeed] times the
    unit vector that points from [b] to the agent: the result is that
    desired velocity minus the own velocity, clamped to
    [maxSteeringForce]; the distance to [b] has no influence on it. *)
Theorem separate_single_neighbour (a b : t) (elements : list t) :
  filter (neighbour a (desiredSeparation a)) elements = [b] ->
  separate a elements
  = Vector.limit
      (Vector.sub (Vector.mult (toward (location b) (location a)) (maxSpeed a))
                  (velocity a))
      (maxSteeringForce a).
Proof.
  intros H. rewrite separate_neighbours, H.
  apply separate_one. exact (filter_single_in _ _ _ H).
Qed.

(** X4: with exactly one neighbour [b] within the radius 10, [cohesion]
    steers towards the desired velocity [maxSpeed] times the unit vector
    that points from the agent to [b]. *)
Theorem cohesion_single_neighbour (a b : t) (elements : list t) :
  filter (neighbour a 10) elements = [b] ->
  cohesion a elements
  = Vector.limit
      (Vector.sub (Vector.mult (toward (location a) (location b)) (maxSpeed a))
                  (velocity a))
      (maxSteeringForce a).
Proof.
  intros H. rewrite cohesion_neighbours, H.
  apply cohesion_one. exact (filter_single_in _ _ _ H).
Qed.

(** X5: with exactly one neighbour [b] within [2 * width], [align] steers
    towards the desired velocity [maxSpeed] times the normalized velocity
    of [b] (the zero vector for a neighbour at rest). *)
Theorem align_single_neighbour (a b : t) (elements : list t) (n : Vector.t) :
  filter (neighbour a (width a * 2)) elements = [b] ->
  Vector.normalize (velocity b) = Some n ->
  align a elements
  = Vector.limit (Vector.sub (Vector.mult n (maxSpeed a)) (velocity a))
                 (maxSteeringForce a).
Proof.
  intros H Hn. rewrite align_neighbours, H.
  apply align_one; [exact (filter_single_in _ _ _ H) | exact Hn].
Qed.

Lemma mag_heading (v : Vector.t) : Vector.mag v <> 0 -> Vector.mag (heading v) = 1.
Proof.
  intros H. apply (mag_normalize v); [assumption | apply normalize_heading; assumption].
Qed.

(** A unit vector scaled to the speed [s], steered to from rest. *)
Lemma limit_unit_scaled (u : Vector.t) (s h : R) :
  Vector.mag u = 1 -> 0 <= s -> 0 <= h ->
  Vector.limit (Vector.sub (Vector.mult u s) Vector.zero) h
  = Some (Vector.mult u (Rmin s h)).
Proof.
  intros Hu Hs Hh.
  replace (Vector.sub (Vector.mult u s) Vector.zero) with (Vector.mult u s)
    by (unfold Vector.sub, Vector.mult, Vector.zero; simpl; f_equal; ring).
  assert (Vector.mag (Vector.mult u s) = s) as M
      by (rewrite mag_mult, Hu by assumption; ring).
  unfold Vector.limit. rewrite M.
  destruct (num_gt s h) eqn:G.
  - apply num_gt_true in G. rewrite Rmin_right by lra.
    rewrite normalize_nonzero by (rewrite M; lra). rewrite M. cbn [bind].
    unfold Vector.mult; simpl. do 2 f_equal; field; lra.
  - apply num_gt_false in G. rewrite Rmin_left by lra. reflexivity.
Qed.

(** X6: an agent at rest with exactly one neighbour [b] within
    [desiredSeparation] gets from [separate] the unit vector that points
    away from [b], scaled to the smaller of [maxSpeed] and
    [maxSteeringForce]; the force has that magnitude. *)
Theorem separate_at_rest_pushes_away (a b : t) (elements : list t) :
  filter (neighbour a (desiredSeparation a)) elements = [b] ->
  velocity a = Vector.zero -> 0 <= maxSpeed a -> 0 <= maxSteeringForce a ->
  separate a elements
  = Some (Vector.mult (toward (location b) (location a))
                      (Rmin (maxSpeed a) (maxSteeringForce a)))
  /\ Vector.mag (Vector.mult (toward (location b) (location a))
                             (Rmin (maxSpeed a) (maxSteeringForce a)))
     = Rmin (maxSpeed a) (maxSteeringForce a).
Proof.
  intros H Hv Hs Hh.
  pose proof (filter_single_in _ _ _ H) as N.
  destruct (neighbour_inv _ _ _ N) as (_ & Hd & _).
  assert (Vector.mag (toward (location b) (location a)) = 1) as U.
  { rewrite <- heading_sub. apply mag_heading.
    rewrite mag_sub_distance, distance_sym. lra. }
  split.
  - rewrite separate_neighbours, H, (separate_one a b N).
    unfold steer. rewrite Hv. apply limit_unit_scaled; assumption.
  - rewrite mag_mult, U by (apply Rmin_glb; assumption). ring.
Qed.

End NeighbourFacts.

(** ** The agent after a run *)

Module AfterRunFacts.
Import Agent Contributions Layout.
Import VectorFacts SteeringFacts RunFacts LogFacts ApplyForcesFacts.

Lemma reaccelerated_refl (a : t) : reaccelerated a a.
Proof. exists (acceleration a). symmetry. apply retarget_same. Qed.

Lemma reaccelerated_trans (a b c : t) :
  reaccelerated a b -> reaccelerated b c -> reaccelerated a c.
Proof. intros [acc ->] [acc' ->]. exists acc'. reflexivity. Qed.

Lemma apply_reaccelerated (b : Behavior) (f : Vector.t) (r r' : Run) :
  apply b f r = Some r' -> reaccelerated (self r) (self r').
Proof.
  unfold apply, Mover.applyForce.
  destruct (Vector.div f _) as [q|]; cbn [bind]; [|discriminate].
  intros H; injection H as <-. eexists. apply set_body_retarget.
Qed.

Lemma compute_apply_reaccelerated (b : Behavior) (force : option Vector.t) (r r' : Run) :
  (f <- force ;; apply b f r) = Some r' -> reaccelerated (self r) (self r').
Proof.
  destruct force as [f|]; cbn [bind]; [|discriminate].
  apply apply_reaccelerated.
Qed.

Section Inversion.
Context {Item : Type} (E : Externals Item) (sys : System Item).

Lemma liquid_loop_reaccelerated (items : list Item) :
  forall r r', liquid_loop E items r = Some r' -> reaccelerated (self r) (self r').
Proof.
  induction items as [|liquid rest IH]; intros r r'; cbn [liquid_loop].
  - intros H; injection H as <-. apply reaccelerated_refl.
  - destruct (_ && _).
    + intros H. apply bind_some in H as (r1 & H1 & H2).
      eapply reaccelerated_trans; [eapply apply_reaccelerated; exact H1|].
      apply IH; exact H2.
    + cbn [bind]. apply IH.
Qed.

Lemma attract_loop_reaccelerated (b : Behavior) (items : list Item) :
  forall r r', attract_loop E b items r = Some r' -> reaccelerated (self r) (self r').
Proof.
  induction items as [|item rest IH]; intros r r'; cbn [attract_loop].
  - intros H; injection H as <-. apply reaccelerated_refl.
  - destruct (negb _).
    + intros H. apply bind_some in H as (r1 & H1 & H2).
      eapply reaccelerated_trans; [eapply apply_reaccelerated; exact H1|].
      apply IH; exact H2.
    + cbn [bind]. apply IH.
Qed.

Lemma motor_step_reaccelerated (sa : bool) (r r' : Run) :
  motor_step sa r = Some r' -> reaccelerated (self r) (self r').
Proof.
  unfold motor_step. destruct (_ && _).
  - apply compute_apply_reaccelerated.
  - intros H; injection H as <-. apply reaccelerated_refl.
Qed.

Lemma pointer_step_reaccelerated (r r' : Run) :
  pointer_step sys r = Some r' -> reaccelerated (self r) (self r').
Proof.
  unfold pointer_step. destruct (_ && _).
  - apply compute_apply_reaccelerated.
  - intros H; injection H as <-. apply reaccelerated_refl.
Qed.

Lemma seek_step_reaccelerated (r r' : Run) :
  seek_step r = Some r' -> reaccelerated (self r) (self r').
Proof.
  unfold seek_step. destruct (seekTarget (self r)).
  - apply compute_apply_reaccelerated.
  - intros H; injection H as <-. apply reaccelerated_refl.
Qed.

Lemma flow_step_reaccelerated (r r' : Run) :
  flow_step r = Some r' -> reaccelerated (self r) (self r').
Proof.
  unfold flow_step. destruct (flowField (self r)) as [ff|].
  - cbv zeta. destruct (column ff _).
    + apply compute_apply_reaccelerated.
    + intros H; injection H as <-. apply reaccelerated_refl.
  - intros H; injection H as <-. apply reaccelerated_refl.
Qed.

Lemma flock_step_reaccelerated (r r' : Run) :
  flock_step sys r = Some r' -> reaccelerated (self r) (self r').
Proof.
  unfold flock_step. destruct (flocking (self r)).
  - unfold flock. intros H.
    apply bind_some in H as (f1 & _ & H).
    apply bind_some in H as (r1 & H1 & H).
    apply bind_some in H as (f2 & _ & H).
    apply bind_some in H as (r2 & H2 & H).
    apply bind_some in H as (f3 & _ & H3).
    eapply reaccelerated_trans; [eapply apply_reaccelerated; exact H1|].
    eapply reaccelerated_trans; [eapply apply_reaccelerated; exact H2|].
    eapply apply_reaccelerated; exact H3.
  - intros H; injection H as <-. apply reaccelerated_refl.
Qed.

(** The loop over the sensors leaves every sensor repositioned, whether
    activated or not. *)
Lemma sensor_loop_repositions (todo : list Sensor.t) :
  forall i done r sa r' b,
    sensors (self r) = done ++ todo ->
    sensor_loop E i done todo r sa = Some (r', b) ->
    exists acc,
      self r'
      = retarget (self r) acc
          (done ++ map (fun p => reposition E (self r) (fst p) (snd p))
                       (indexed i todo)).
Proof.
  induction todo as [|sensor rest IH]; intros i done r sa r' b Hs.
  - cbn [sensor_loop]. intros H; injection H as <- _.
    exists (acceleration (self r)). simpl. rewrite <- Hs.
    symmetry. apply retarget_same.
  - cbn [sensor_loop]. cbv zeta.
    set (sensor' := reposition E (self r) i sensor).
    set (rmid := mkRun (set_sensors (self r) (done ++ sensor' :: rest)) (applied r)).
    change (indexed i (sensor :: rest)) with ((i, sensor) :: indexed (S i) rest).
    cbn [map fst snd]. fold sensor'.
    destruct (Sensor.activated sensor').
    + intros H. apply bind_some in H as (r1 & H1 & H2).
      apply apply_reaccelerated in H1 as [acc1 E1].
      apply (IH (S i) (done ++ [sensor']) r1) in H2 as [acc E2].
      2:{ rewrite E1. simpl. rewrite <- app_assoc. reflexivity. }
      exists acc. rewrite E2, E1, <- app_assoc. reflexivity.
    + intros H.
      apply (IH (S i) (done ++ [sensor']) rmid) in H as [acc E2].
      2:{ simpl. rewrite <- app_assoc. reflexivity. }
      exists acc. rewrite E2, <- app_assoc. reflexivity.
Qed.

(** All that a run changes. *)
Lemma applyForces_result (a : t) (acc : Vector.t) (r : Run) :
  applyForces E sys a = Some (acc, r) ->
  self r = retarget a acc (repositioned E a).
Proof.
  unfold applyForces, applyForces_from. intros H.
  apply bind_some in H as (r1 & H1 & H).
  apply bind_some in H as (r2 & H2 & H).
  apply bind_some in H as (r3 & H3 & H).
  apply bind_some in H as ([r4 sa] & H4 & H).
  apply bind_some in H as (r5 & H5 & H).
  apply bind_some in H as (r6 & H6 & H).
  apply bind_some in H as (r7 & H7 & H).
  apply bind_some in H as (r8 & H8 & H).
  apply bind_some in H as (r9 & H9 & H).
  injection H as <- <-.
  apply liquid_loop_reaccelerated in H1. apply attract_loop_reaccelerated in H2.
  apply attract_loop_reaccelerated in H3.
  pose proof (reaccelerated_trans _ _ _ (reaccelerated_trans _ _ _ H1 H2) H3)
    as [acc3 E3]. simpl in E3.
  apply (sensor_loop_repositions _ 0 []) in H4 as [acc4 E4]; [|reflexivity].
  apply motor_step_reaccelerated in H5. apply pointer_step_reaccelerated in H6.
  apply seek_step_reaccelerated in H7. apply flow_step_reaccelerated in H8.
  apply flock_step_reaccelerated in H9.
  pose proof (reaccelerated_trans _ _ _
                (reaccelerated_trans _ _ _
                   (reaccelerated_trans _ _ _
                      (reaccelerated_trans _ _ _ H5 H6) H7) H8) H9)
    as [acc9 E9].
  rewrite E9, E4, E3. reflexivity.
Qed.

(** X7: a run of [applyForces] changes the acceleration of the agent and
    the location and border style of its sensors, and nothing else: its
    location, velocity, mass, speeds, steering options, flow field and
    targets are as before. *)
Theorem applyForces_moves_nothing (a : t) :
  mass a <> 0 ->
  exists acc r,
    applyForces E sys a = Some (acc, r)
    /\ self r = retarget a acc (repositioned E a)
    /\ location (self r) = location a
    /\ velocity (self r) = velocity a
    /\ mass (self r) = mass a
    /\ maxSpeed (self r) = maxSpeed a
    /\ maxSteeringForce (self r) = maxSteeringForce a.
Proof.
  intros Hm.
  destruct (applyForces_run E sys a Hm) as (acc & r & _ & _ & _ & _ & EQ & _).
  exists acc, r. split; [exact EQ|].
  pose proof (applyForces_result a acc r EQ) as R.
  split; [exact R|]. rewrite R. repeat split.
Qed.

Lemma nth_error_indexed_map {A : Type} (f : nat * Sensor.t -> A) (l : list Sensor.t) :
  forall k i,
    nth_error (map f (indexed k l)) i
    = match nth_error l i with
      | Some s => Some (f ((k + i)%nat, s))
      | None => None
      end.
Proof.
  induction l as [|s l IH]; intros k i.
  - destruct i; reflexivity.
  - change (indexed k (s :: l)) with ((k, s) :: indexed (S k) l).
    destruct i as [|i]; cbn [map nth_error].
    + rewrite Nat.add_0_r. reflexivity.
    + rewrite IH. replace (S k + i)%nat with (k + S i)%nat by lia. reflexivity.
Qed.

Lemma repositioned_length (a : t) :
  List.length (repositioned E a) = List.length (sensors a).
Proof.
  unfold repositioned, indexed.
  rewrite length_map, length_combine, length_seq. apply Nat.min_id.
Qed.

(** X8: after a run, the agent has as many sensors as before, and the
    sensor at index [i] sits at the location of the agent plus its offset
    [offsetDistance * (cos theta, sin theta)], with [theta] the angle of
    the agent plus [offsetAngle], in radians; the first sensor keeps its
    border style and every other one gets ['none']; offsets and
    activation are unchanged.  This holds for sensors that are not
    activated too. *)
Theorem applyForces_positions_sensors (a : t) :
  mass a <> 0 ->
  exists acc r,
    applyForces E sys a = Some (acc, r)
    /\ List.length (sensors (self r)) = List.length (sensors a)
    /\ forall i s,
        nth_error (sensors a) i = Some s ->
        exists s',
          nth_error (sensors (self r)) i = Some s'
          /\ Sensor.location s'
             = Vector.add (location a)
                 (Vector.mk
                    (Sensor.offsetDistance s
                     * cos (degreesToRadians E (angle a + Sensor.offsetAngle s)))
                    (Sensor.offsetDistance s
                     * sin (degreesToRadians E (angle a + Sensor.offsetAngle s))))
          /\ Sensor.borderStyle s'
             = (if (0 <? i)%nat then "none" else Sensor.borderStyle s)
          /\ Sensor.activated s' = Sensor.activated s
          /\ Sensor.offsetDistance s' = Sensor.offsetDistance s
          /\ Sensor.offsetAngle s' = Sensor.offsetAngle s.
Proof.
  intros Hm.
  destruct (applyForces_run E sys a Hm) as (acc & r & _ & _ & _ & _ & EQ & _).
  exists acc, r. split; [exact EQ|].
  rewrite (applyForces_result a acc r EQ).
  change (sensors (retarget a acc (repositioned E a))) with (repositioned E a).
  split; [apply repositioned_length|].
  intros i s Hi. exists (reposition E a i s). split.
  - unfold repositioned. rewrite nth_error_indexed_map, Hi. reflexivity.
  - unfold reposition. destruct (0 <? i)%nat; repeat split.
Qed.

End Inversion.

End AfterRunFacts.

(** ** Single behaviours of a run *)

Module BehaviourFacts.
Import Agent Contributions Layout.
Import VectorFacts SteeringFacts RunFacts LogFacts ApplyForcesFacts AfterRunFacts.

Lemma is_nil_true {A : Type} (l : list A) : is_nil l = true -> l = [].
Proof. destruct l; [reflexivity | discriminate]. Qed.

Lemma set_sensors_same (a : t) : set_sensors a (sensors a) = a.
Proof. destruct a; reflexivity. Qed.

Lemma entries_tagged (b : Behavior) (l : list (Behavior * Vector.t)) :
  tagged b l -> entries b l = map snd l.
Proof.
  induction 1 as [|p l Hp _ IH]; [reflexivity|].
  unfold entries in *. simpl. unfold Behavior_eqb at 1.
  rewrite Hp, Nat.eqb_refl. simpl. rewrite IH. reflexivity.
Qed.

Lemma mag_mult_abs (v : Vector.t) (n : R) :
  Vector.mag (Vector.mult v n) = Vector.mag v * Rabs n.
Proof.
  destruct (Rle_dec 0 n) as [H|H].
  - rewrite Rabs_right by lra. apply mag_mult; assumption.
  - rewrite Rabs_left by lra.
    replace (Vector.mult v n) with (Vector.mult (Vector.mult v (-1)) (- n))
      by (unfold Vector.mult; simpl; f_equal; ring).
    rewrite mag_mult by lra. f_equal.
    destruct v as [a b]. unfold Vector.mult; simpl.
    apply mag_mk; [apply mag_nonneg|].
    rewrite mag_sq; simpl. ring.
Qed.

Section Behaviours.
Context {Item : Type} (E : Externals Item) (sys : System Item).

Lemma sensor_loop_quiet (todo : list Sensor.t) :
  forall i done r sa,
    sensors (self r) = done ++ todo ->
    existsb Sensor.activated todo = false ->
    sensor_loop E i done todo r sa
    = Some (mkRun (set_sensors (self r)
                     (done ++ map (fun p => reposition E (self r) (fst p) (snd p))
                                  (indexed i todo)))
                  (applied r), sa).
Proof.
  induction todo as [|sensor rest IH]; intros i done r sa Hs Hq.
  - cbn [sensor_loop]. simpl. rewrite <- Hs, set_sensors_same.
    destruct r; reflexivity.
  - cbn [sensor_loop]. cbv zeta.
    set (sensor' := reposition E (self r) i sensor).
    assert (Sensor.activated sensor' = false) as A.
    { cbn [existsb] in Hq. apply orb_false_elim in Hq as [Hq _].
      unfold sensor', reposition. destruct (0 <? i)%nat; exact Hq. }
    rewrite A.
    cbn [existsb] in Hq. apply orb_false_elim in Hq as [_ Hq].
    rewrite (IH (S i) (done ++ [sensor'])); [| simpl; rewrite <- app_assoc; reflexivity
                                             | exact Hq].
    change (indexed i (sensor :: rest)) with ((i, sensor) :: indexed (S i) rest).
    cbn [map fst snd]. fold sensor'. rewrite <- app_assoc. reflexivity.
Qed.

(** X9: an agent none of whose behaviours is active (no liquid,
    attractor or repeller, no activated sensor, no motor, no pointer
    following, no seek target, no populated flow-field column, no
    flocking) gets no force: [applyForces] returns its acceleration
    unchanged and only repositions its sensors.  No division takes place,
    so this holds for every mass, 0 included. *)
Theorem idle_agent_unchanged (a : t) :
  (forall b, active sys a b = false) ->
  applyForces E sys a
  = Some (acceleration a, mkRun (set_sensors a (repositioned E a)) []).
Proof.
  intros H.
  pose proof (H Drag) as Hd. pose proof (H Attract) as Ha.
  pose proof (H Repel) as Hr. pose proof (H SensorForce) as Hs.
  pose proof (H Motor) as Hm. pose proof (H Pointer) as Hp.
  pose proof (H Seek) as Hk. pose proof (H Flow) as Hf.
  pose proof (H Separate) as Hq. simpl in Hd, Ha, Hr, Hs, Hm, Hp, Hk, Hf, Hq.
  apply negb_false_iff, is_nil_true in Hd, Ha, Hr.
  rewrite Hs in Hm. simpl in Hm.
  unfold applyForces, applyForces_from. rewrite Hd, Ha, Hr.
  cbn [liquid_loop attract_loop bind self].
  rewrite (sensor_loop_quiet (sensors a) 0 [] (mkRun a []) false eq_refl Hs).
  cbn [bind self applied app].
  fold (repositioned E a).
  set (a' := set_sensors a (repositioned E a)).
  unfold motor_step.
  change (motorSpeed (self (mkRun a' []))) with (motorSpeed a).
  rewrite Hm. cbn [negb andb bind].
  unfold pointer_step.
  change (followMouse (self (mkRun a' []))) with (followMouse a).
  rewrite Hp. cbn [bind].
  unfold seek_step.
  change (seekTarget (self (mkRun a' []))) with (seekTarget a).
  destruct (seekTarget a); [discriminate|]. cbn [bind].
  assert (flock_step sys (mkRun a' []) = Some (mkRun a' [])) as Fq.
  { unfold flock_step.
    change (flocking (self (mkRun a' []))) with (flocking a).
    rewrite Hq. reflexivity. }
  unfold flow_step.
  change (flowField (self (mkRun a' []))) with (flowField a).
  change (location (self (mkRun a' []))) with (location a).
  destruct (flowField a) as [ff|]; [|cbn [bind]; rewrite Fq; reflexivity].
  cbv zeta. unfold agent_column in Hf.
  destruct (column ff _); [discriminate|].
  cbn [bind]. rewrite Fq. reflexivity.
Qed.

(** X10: when the cell of the agent has a sampled vector [loc], the one
    force applied for the flow field treats [loc] as a direction, not as a
    place: it is [loc * maxSpeed - velocity] clamped to
    [maxSteeringForce], wherever the agent is. *)
Theorem flow_sampled_follows_direction
        (a : t) (ff : FlowField.t) (fcol : Z -> option Vector.t) (loc : Vector.t) :
  mass a <> 0 -> flowField a = Some ff ->
  agent_column a ff = Some fcol -> agent_sample a ff fcol = Some loc ->
  exists acc r f,
    applyForces E sys a = Some (acc, r)
    /\ Vector.limit (Vector.sub (Vector.mult loc (maxSpeed a)) (velocity a))
                    (maxSteeringForce a) = Some f
    /\ entries Flow (applied r) = [f].
Proof.
  intros Hm Hff Hcol Hrow.
  destruct (applyForces_run E sys a Hm)
    as (acc & r & Ld & La & Lr & Ls & EQ & _ & _ & _ & D).
  destruct (decomposes_entries _ _ _ _ _ _ _ _ D) as (_ & _ & _ & Fl & _).
  destruct (follow_total a (Target.mk loc)) as [f Ef].
  exists acc, r, f. split; [exact EQ|]. split; [exact Ef|].
  rewrite Fl. unfold flow_log. rewrite Hff, Hcol, Hrow, Ef. apply entries_one.
Qed.

(** X11: a flow field of resolution 0 applies no force: the cell index is
    not a number of the grid, no column is found, and the run goes on. *)
Theorem flow_zero_resolution_skipped (a : t) (ff : FlowField.t) :
  mass a <> 0 -> flowField a = Some ff -> FlowField.resolution ff = 0 ->
  exists acc r,
    applyForces E sys a = Some (acc, r) /\ entries Flow (applied r) = [].
Proof.
  intros Hm Hff Hres.
  destruct (applyForces_run E sys a Hm)
    as (acc & r & Ld & La & Lr & Ls & EQ & _ & _ & _ & D).
  exists acc, r. split; [exact EQ|].
  apply (decomposes_silent _ _ _ _ _ _ _ _ Flow D).
  simpl. rewrite Hff. unfold agent_column, cell. rewrite Hres.
  rewrite (proj2 (num_nonzero_false 0) eq_refl). reflexivity.
Qed.

Lemma per_item_length {I : Type} (a : t) (b : Behavior)
      (keep : t -> I -> bool) (force : t -> I -> Vector.t)
      (items : list I) (ext : list (Behavior * Vector.t)) :
  (forall this item, frame a this -> keep this item = keep a item) ->
  per_item a b keep force items ext ->
  List.length ext = List.length (filter (keep a) items).
Proof.
  intros Hk H.
  induction H as [|this item rest ext F K _ IH|this item rest ext F K _ IH]; simpl.
  - reflexivity.
  - rewrite <- (Hk this item F), K. simpl. rewrite IH. reflexivity.
  - rewrite <- (Hk this item F), K. exact IH.
Qed.

Lemma other_frame (a this : t) (item : Item) :
  frame a this -> other E this item = other E a item.
Proof. intros (acc & sens & -> & _). reflexivity. Qed.

(** X12: a run applies exactly one attraction force for every object of
    the Attractor cache whose id is not the id of the agent, and one for
    every such object of the Repeller cache: an agent that is itself in
    the cache is passed over. *)
Theorem point_sources_exclude_self (a : t) :
  mass a <> 0 ->
  exists acc r,
    applyForces E sys a = Some (acc, r)
    /\ List.length (entries Attract (applied r))
       = List.length (filter (other E a) (Direct.cache_items (caches_Attractor sys)))
    /\ List.length (entries Repel (applied r))
       = List.length (filter (other E a) (Direct.cache_items (caches_Repeller sys))).
Proof.
  intros Hm.
  destruct (applyForces_run E sys a Hm)
    as (acc & r & Ld & La & Lr & Ls & EQ & _ & _ & _ & D).
  exists acc, r. split; [exact EQ|].
  destruct (decomposes_ranked _ _ _ _ _ _ _ _ D)
    as (Rd & Ra & Rr & Rs & Rm & Rp & Rk & Rf & Rq).
  destruct D as (-> & _ & Pa & Pr & _).
  rewrite nonempty_cache_items in Pa, Pr.
  rewrite !entries_app.
  rewrite (entries_ranked Attract _ _ _ Rd), (entries_ranked Attract _ _ _ Rr),
    (entries_ranked Attract _ _ _ Rs), (entries_ranked Attract _ _ _ Rm),
    (entries_ranked Attract _ _ _ Rp), (entries_ranked Attract _ _ _ Rk),
    (entries_ranked Attract _ _ _ Rf), (entries_ranked Attract _ _ _ Rq)
    by (simpl; lia).
  rewrite (entries_ranked Repel _ _ _ Rd), (entries_ranked Repel _ _ _ Ra),
    (entries_ranked Repel _ _ _ Rs), (entries_ranked Repel _ _ _ Rm),
    (entries_ranked Repel _ _ _ Rp), (entries_ranked Repel _ _ _ Rk),
    (entries_ranked Repel _ _ _ Rf), (entries_ranked Repel _ _ _ Rq)
    by (simpl; lia).
  cbn [app]. rewrite !app_nil_r.
  rewrite (entries_tagged _ _ (per_item_tagged _ _ _ _ _ _ Pa)),
    (entries_tagged _ _ (per_item_tagged _ _ _ _ _ _ Pr)), !length_map.
  split; eapply per_item_length; eauto using other_frame.
Qed.

End Behaviours.

End BehaviourFacts.

(** ** The motor, and runs in a row *)

Module MotorFacts.
Import Agent Contributions Layout.
Import VectorFacts SteeringFacts NeighbourFacts RunFacts LogFacts ApplyForcesFacts.
Import BehaviourFacts.

Section Motor.
Context {Item : Type} (E : Externals Item) (sys : System Item).

Lemma motor_entries (a : t) :
  mass a <> 0 -> motorSpeed a <> 0 -> anySensorActivated a = false ->
  exists acc r f,
    applyForces E sys a = Some (acc, r)
    /\ motor_force a = Some f
    /\ entries Motor (applied r) = [f].
Proof.
  intros Hm Hs Hn.
  destruct (applyForces_run E sys a Hm)
    as (acc & r & Ld & La & Lr & Ls & EQ & _ & _ & _ & D).
  destruct (decomposes_entries _ _ _ _ _ _ _ _ D) as (M & _).
  destruct (motor_force_total a) as [f Ef].
  exists acc, r, f. split; [exact EQ|]. split; [exact Ef|].
  rewrite M. unfold motor_log. rewrite Hn.
  apply num_nonzero_true in Hs. unfold truthy. rewrite Hs, Ef. apply entries_one.
Qed.

(** X13: the motor cannot start an agent that is at rest: with a nonzero
    [motorSpeed], no sensor activated and the velocity (0, 0), the one
    motor force applied is the zero vector, since the zero velocity stays
    zero when normalized. *)
Theorem motor_at_rest_applies_zero (a : t) :
  mass a <> 0 -> motorSpeed a <> 0 -> anySensorActivated a = false ->
  velocity a = Vector.zero ->
  exists acc r,
    applyForces E sys a = Some (acc, r)
    /\ entries Motor (applied r) = [Vector.zero].
Proof.
  intros Hm Hs Hn Hv.
  destruct (motor_entries a Hm Hs Hn) as (acc & r & f & EQ & Ef & En).
  exists acc, r. split; [exact EQ|]. rewrite En. f_equal.
  unfold motor_force in Ef. rewrite Hv in Ef.
  change (Vector.clone Vector.zero) with Vector.zero in Ef.
  rewrite normalize_zero in Ef. cbn [bind] in Ef.
  destruct (num_gt _ _); injection Ef as <-;
    unfold Vector.mult, Vector.zero; simpl; f_equal; ring.
Qed.

(** X14: for a moving agent with a nonzero [motorSpeed] and no sensor
    activated, the motor force has the magnitude [|motorSpeed|], whatever
    the speed of the agent is: the motor does not ease off as the speed
    nears [motorSpeed]. *)
Theorem motor_force_magnitude (a : t) :
  mass a <> 0 -> motorSpeed a <> 0 -> anySensorActivated a = false ->
  Vector.mag (velocity a) <> 0 ->
  exists acc r f,
    applyForces E sys a = Some (acc, r)
    /\ entries Motor (applied r) = [f]
    /\ Vector.mag f = Rabs (motorSpeed a).
Proof.
  intros Hm Hs Hn Hv.
  destruct (motor_entries a Hm Hs Hn) as (acc & r & f & EQ & Ef & En).
  exists acc, r, f. split; [exact EQ|]. split; [exact En|].
  unfold motor_force, Vector.clone in Ef. rewrite eta in Ef.
  rewrite (normalize_heading _ Hv) in Ef. cbn [bind] in Ef.
  pose proof (mag_heading _ Hv) as U.
  destruct (num_gt _ _); injection Ef as <-;
    rewrite mag_mult_abs, U; [rewrite Rabs_Ropp|]; ring.
Qed.

(** X15: the forces of the motor, the pointer, the seek target, the flow
    field and the flock do not depend on the acceleration accumulated so
    far nor on where the sensors are: a second run of [applyForces], on
    the agent the first run left, applies the same forces again. *)
Theorem applyForces_again_same_steering (a : t) :
  mass a <> 0 ->
  exists acc1 r1 acc2 r2,
    applyForces E sys a = Some (acc1, r1)
    /\ applyForces E sys (self r1) = Some (acc2, r2)
    /\ forall b, (4 <= rank b)%nat ->
                 entries b (applied r2) = entries b (applied r1).
Proof.
  intros Hm.
  destruct (applyForces_run E sys a Hm)
    as (acc1 & r1 & Ld & La & Lr & Ls & EQ1 & _ & F & _ & D1).
  assert (mass (self r1) <> 0) as Hm1 by (rewrite (frame_mass _ _ F); exact Hm).
  destruct (applyForces_run E sys (self r1) Hm1)
    as (acc2 & r2 & Ld' & La' & Lr' & Ls' & EQ2 & _ & _ & _ & D2).
  exists acc1, r1, acc2, r2. split; [exact EQ1|]. split; [exact EQ2|].
  destruct (decomposes_entries _ _ _ _ _ _ _ _ D1) as (M1 & P1 & K1 & F1 & Q1).
  destruct (decomposes_entries _ _ _ _ _ _ _ _ D2) as (M2 & P2 & K2 & F2 & Q2).
  rewrite (motor_log_frame _ _ F) in M2.
  rewrite (pointer_log_frame sys _ _ F) in P2.
  rewrite (seek_log_frame _ _ F) in K2.
  rewrite (flow_log_frame _ _ F) in F2.
  intros b Hb.
  destruct b; simpl in Hb; try lia; try congruence;
    rewrite Q1, Q2 by (simpl; lia);
    rewrite (flock_log_frame sys _ _ F); reflexivity.
Qed.

End Motor.

End MotorFacts.

(** ** Cold *)

Module ColdFacts.
Import Cold.

Lemma zero_or_default (v : option R) (d : R) : zero_or v d = default_undefined v d.
Proof.
  destruct v as [n|]; [|reflexivity]. simpl.
  unfold truthy. destruct (num_nonzero n) eqn:Z; [reflexivity|].
  apply num_nonzero_false in Z. subst. reflexivity.
Qed.

(** X16: [Cold] keeps every option it is given, 0 and [false] included,
    and fills a missing one with its default: mass 50, isStatic true,
    width 20, height 20, opacity 0.5. *)
Theorem Cold_keeps_given_options (options : Cold.options) :
  mass (Cold options) = default_undefined (opt_mass options) 50
  /\ isStatic (Cold options) = default_undefined (opt_isStatic options) true
  /\ width (Cold options) = default_undefined (opt_width options) 20
  /\ height (Cold options) = default_undefined (opt_height options) 20
  /\ opacity (Cold options) = default_undefined (opt_opacity options) (5 / 10).
Proof.
  unfold Cold; simpl. rewrite !zero_or_default.
  repeat split. destruct (opt_isStatic options) as [[|]|]; reflexivity.
Qed.

End ColdFacts.

(** ** ColorTable *)

Module ColorTableFacts.
Import ColorTable.

(** X17: asking [getColor] for both colours is the same as asking for
    none: with both flags set it returns (or throws) exactly what it does
    with both flags unset. *)
Theorem getColor_both_flags_as_none (this : t) (name : arg) :
  getColor this name true true = getColor this name false false.
Proof.
  destruct name as [s|]; [|reflexivity]. simpl.
  destruct (this s) as [[sc ec|]|]; reflexivity.
Qed.

(** X18: a colour range added under a name is found again under that
    name: without flags as the object with both colours, with the start
    flag alone as the start colour, with the end flag alone as the end
    colour.  A second [addColor] under the same name replaces the first. *)
Theorem addColor_getColor_roundtrip
        (check : options -> bool) (this : t) (o : options) :
  check o = true ->
  getColor (addColor check this o) (Str (name o)) false false
  = Range (Some (startColor o)) (Some (endColor o))
  /\ getColor (addColor check this o) (Str (name o)) true false
     = Single (startColor o)
  /\ getColor (addColor check this o) (Str (name o)) false true
     = Single (endColor o)
  /\ forall o', check o' = true -> name o' = name o ->
                getColor (addColor check (addColor check this o') o)
                         (Str (name o)) false false
                = Range (Some (startColor o)) (Some (endColor o)).
Proof.
  intros H. unfold getColor, addColor. rewrite H, String.eqb_refl.
  repeat split.
Qed.

(** X19: [addColor] under a name other than [__proto__] changes the
    table at that name only, and [addColor] changes nothing at all when
    the check of its options fails: every other name is looked up as
    before.  (Under the name [__proto__] the assignment would replace the
    prototype of the table, and with it the inherited properties.) *)
Theorem addColor_other_names
        (check : options -> bool) (this : t) (o : options)
        (n : string) (startFlag endFlag : bool) :
  (n <> name o /\ name o <> "__proto__") \/ check o = false ->
  getColor (addColor check this o) (Str n) startFlag endFlag
  = getColor this (Str n) startFlag endFlag.
Proof.
  intros H. unfold getColor, addColor.
  destruct (check o); [|reflexivity].
  destruct H as [[H _]|H]; [|discriminate].
  apply String.eqb_neq in H. rewrite H. reflexivity.
Qed.

(** X20: [getColor] throws for a name that is no string, and for a string
    under which the table has nothing, whatever the flags are; the
    message names the missing entry. *)
Theorem getColor_missing_throws (this : t) (n : string) (startFlag endFlag : bool) :
  this n = None ->
  getColor this (Str n) startFlag endFlag
  = Throw (String.append "ColorTable: "
             (String.append n
                " does not exist. Add colors to the ColorTable via addColor()."))
  /\ getColor this NotString startFlag endFlag
     = Throw "ColorTable: You must pass a name (string) for the color entry in the table.".
Proof. intros H. unfold getColor. rewrite H. split; reflexivity. Qed.

(** X21: for a name under which the table has a property that is no
    colour entry, as for the inherited [name], [getColor] does not throw:
    it returns an object whose two colours are undefined, whatever the
    flags are. *)
Theorem getColor_inherited_property (this : t) (n : string) (startFlag endFlag : bool) :
  this n = Some Inherited ->
  getColor this (Str n) startFlag endFlag = Range None None.
Proof.
  intros H. unfold getColor. rewrite H.
  destruct startFlag, endFlag; reflexivity.
Qed.

End ColorTableFacts.

(** ** World.resize *)

Module WorldFacts.
Import World.

(** The location of an element after a resize. *)
Lemma relocate_map (this : t) (W H : R) (elements : list element) :
  width this <> 0 -> height this <> 0 ->
  relocate this W H elements
  = Some (map (fun e =>
                 mkElement
                   (Vector.mk (W * (Vector.x (location e) / width this))
                              (H * (Vector.y (location e) / height this)))
                   (controlCamera e))
              elements).
Proof.
  intros Hw Hh. induction elements as [|e rest IH]; [reflexivity|].
  cbn [relocate]. unfold num_div.
  rewrite (proj2 (num_nonzero_true _) Hw), (proj2 (num_nonzero_true _) Hh).
  cbn [bind]. rewrite IH. reflexivity.
Qed.

Lemma resize_scales_locations_aux
      (this : t) (elements : list element) (W H : R) :
  existsb controlCamera elements = false ->
  width this <> 0 -> height this <> 0 ->
  resize this elements W H
  = Some (if el_is_body this then mk W H true else this,
          map (fun e =>
                 mkElement
                   (Vector.mk (W * (Vector.x (location e) / width this))
                              (H * (Vector.y (location e) / height this)))
                   (controlCamera e))
              elements).
Proof.
  intros C Hw Hh. unfold resize. rewrite C, relocate_map by assumption.
  cbn [bind]. destruct (el_is_body this) eqn:B; reflexivity.
Qed.

(** X22: when an element controls the camera, [resize] changes neither
    the elements nor the size of the world, and divides by nothing.  When
    none does and the world has a nonzero width and height, [resize] moves
    every element in proportion: [x] becomes [windowWidth * (x / width)]
    and [y] becomes [windowHeight * (y / height)]; the world takes the new
    size only when its element is the document body. *)
Theorem resize_scales_locations
        (this : t) (elements : list element) (W H : R) :
  (existsb controlCamera elements = true ->
   resize this elements W H = Some (this, elements))
  /\ (existsb controlCamera elements = false ->
      width this <> 0 -> height this <> 0 ->
      resize this elements W H
      = Some (if el_is_body this then mk W H true else this,
              map (fun e =>
                     mkElement
                       (Vector.mk (W * (Vector.x (location e) / width this))
                                  (H * (Vector.y (location e) / height this)))
                       (controlCamera e))
                  elements)).
Proof.
  split.
  - intros C. unfold resize. rewrite C. reflexivity.
  - apply resize_scales_locations_aux.
Qed.

End WorldFacts.

(** ** The further scenarios *)

Module GalleryFacts.
Import Agent Contributions Layout Scenario Gallery.
Import VectorFacts SteeringFacts NeighbourFacts RunFacts LogFacts ApplyForcesFacts.
Import AfterRunFacts BehaviourFacts MotorFacts ScenarioFacts.

Lemma flock_b_is_neighbour (radius : R) :
  1 < radius -> neighbour flock_a radius flock_b = true.
Proof.
  intros H. unfold neighbour.
  change (same_kind_other flock_a flock_b) with true.
  change (location flock_a) with Vector.zero.
  change (location flock_b) with (Vector.mk 1 0).
  rewrite (distance_val _ _ 1) by (simpl; lra).
  rewrite (proj2 (num_gt_true 1 0)), (proj2 (num_lt_true 1 radius)) by lra.
  reflexivity.
Qed.

Lemma flock_a_not_own_neighbour (radius : R) :
  neighbour flock_a radius flock_a = false.
Proof. unfold neighbour. rewrite same_kind_other_self. reflexivity. Qed.

Lemma flock_neighbours (radius : R) :
  1 < radius -> filter (neighbour flock_a radius) [flock_a; flock_b] = [flock_b].
Proof.
  intros H. cbn [filter].
  rewrite flock_a_not_own_neighbour, (flock_b_is_neighbour radius H). reflexivity.
Qed.

Lemma flock_separation_radius : 1 < desiredSeparation flock_a.
Proof. change (1 < 10 * 2). lra. Qed.

Lemma flock_align_radius : 1 < width flock_a * 2.
Proof. change (1 < 10 * 2). lra. Qed.

Lemma flock_cohesion_radius : 1 < 10.
Proof. lra. Qed.



Lemma separate_single_neighbour_witness :
  filter (neighbour flock_a (desiredSeparation flock_a)) [flock_a; flock_b] = [flock_b]
  /\ separate flock_a [flock_a; flock_b]
     = Vector.limit
         (Vector.sub (Vector.mult (toward (location flock_b) (location flock_a))
                                  (maxSpeed flock_a))
                     (velocity flock_a))
         (maxSteeringForce flock_a).
Proof.
  split; [exact (flock_neighbours _ flock_separation_radius)|].
  exact (separate_single_neighbour flock_a flock_b [flock_a; flock_b]
           (flock_neighbours _ flock_separation_radius)).
Defined.

Lemma cohesion_single_neighbour_witness :
  filter (neighbour flock_a 10) [flock_a; flock_b] = [flock_b]
  /\ cohesion flock_a [flock_a; flock_b]
     = Vector.limit
         (Vector.sub (Vector.mult (toward (location flock_a) (location flock_b))
                                  (maxSpeed flock_a))
                     (velocity flock_a))
         (maxSteeringForce flock_a).
Proof.
  split; [exact (flock_neighbours _ flock_cohesion_radius)|].
  exact (cohesion_single_neighbour flock_a flock_b [flock_a; flock_b]
           (flock_neighbours _ flock_cohesion_radius)).
Defined.

Lemma flock_b_heading : Vector.normalize (velocity flock_b) = Some Vector.zero.
Proof. exact normalize_zero. Qed.

Lemma align_single_neighbour_witness :
  filter (neighbour flock_a (width flock_a * 2)) [flock_a; flock_b] = [flock_b]
  /\ Vector.normalize (velocity flock_b) = Some Vector.zero
  /\ align flock_a [flock_a; flock_b]
     = Vector.limit
         (Vector.sub (Vector.mult Vector.zero (maxSpeed flock_a)) (velocity flock_a))
         (maxSteeringForce flock_a).
Proof.
  split; [exact (flock_neighbours _ flock_align_radius)|].
  split; [exact flock_b_heading|].
  exact (align_single_neighbour flock_a flock_b [flock_a; flock_b] Vector.zero
           (flock_neighbours _ flock_align_radius) flock_b_heading).
Defined.

Lemma flock_a_speeds : 0 <= maxSpeed flock_a /\ 0 <= maxSteeringForce flock_a.
Proof. change (0 <= 1 /\ 0 <= 1). lra. Qed.

Lemma separate_at_rest_pushes_away_witness :
  filter (neighbour flock_a (desiredSeparation flock_a)) [flock_a; flock_b] = [flock_b]
  /\ velocity flock_a = Vector.zero
  /\ 0 <= maxSpeed flock_a /\ 0 <= maxSteeringForce flock_a
  /\ separate flock_a [flock_a; flock_b]
     = Some (Vector.mult (toward (location flock_b) (location flock_a))
                         (Rmin (maxSpeed flock_a) (maxSteeringForce flock_a))).
Proof.
  split; [exact (flock_neighbours _ flock_separation_radius)|].
  split; [reflexivity|].
  split; [exact (proj1 flock_a_speeds)|]. split; [exact (proj2 flock_a_speeds)|].
  exact (proj1 (separate_at_rest_pushes_away flock_a flock_b [flock_a; flock_b]
                  (flock_neighbours _ flock_separation_radius) eq_refl
                  (proj1 flock_a_speeds) (proj2 flock_a_speeds))).
Defined.

Lemma sensing_agent_mass : mass sensing_agent <> 0.
Proof. change (1 <> 0). lra. Qed.

Lemma applyForces_moves_nothing_witness :
  mass sensing_agent <> 0
  /\ exists acc r,
      applyForces externals (system [sensing_agent]) sensing_agent = Some (acc, r)
      /\ location (self r) = location sensing_agent
      /\ velocity (self r) = velocity sensing_agent.
Proof.
  split; [exact sensing_agent_mass|].
  destruct (applyForces_moves_nothing externals (system [sensing_agent])
              sensing_agent sensing_agent_mass)
    as (acc & r & EQ & _ & L & V & _).
  exists acc, r. repeat split; assumption.
Defined.

Lemma applyForces_positions_sensors_witness :
  mass sensing_agent <> 0
  /\ exists acc r,
      applyForces externals (system [sensing_agent]) sensing_agent = Some (acc, r)
      /\ List.length (sensors (self r)) = List.length (sensors sensing_agent).
Proof.
  split; [exact sensing_agent_mass|].
  destruct (applyForces_positions_sensors externals (system [sensing_agent])
              sensing_agent sensing_agent_mass)
    as (acc & r & EQ & L & _).
  exists acc, r. split; assumption.
Defined.

Lemma plain_agent_idle : forall b, active (system [plain_agent]) plain_agent b = false.
Proof.
  intros b. destruct b; try reflexivity.
  change (truthy 0 = false). apply num_nonzero_false. reflexivity.
Qed.

Lemma idle_agent_unchanged_witness :
  (forall b, active (system [plain_agent]) plain_agent b = false)
  /\ applyForces externals (system [plain_agent]) plain_agent
     = Some (acceleration plain_agent,
             mkRun (set_sensors plain_agent (repositioned externals plain_agent)) []).
Proof.
  split; [exact plain_agent_idle|].
  exact (idle_agent_unchanged externals (system [plain_agent]) plain_agent
           plain_agent_idle).
Defined.

Lemma arrow_agent_mass : mass arrow_agent <> 0.
Proof. change (1 <> 0). lra. Qed.

Lemma arrow_agent_column :
  agent_column arrow_agent arrow_field
  = Some (fun row => if (row =? 0)%Z then Some (Vector.mk 1 0) else None).
Proof.
  change (column arrow_field (cell 3 10) = Some
            (fun row => if (row =? 0)%Z then Some (Vector.mk 1 0) else None)).
  rewrite (cell_val 3 10 0) by lra. reflexivity.
Qed.

Lemma arrow_agent_sample :
  agent_sample arrow_agent arrow_field
    (fun row => if (row =? 0)%Z then Some (Vector.mk 1 0) else None)
  = Some (Vector.mk 1 0).
Proof.
  change (sample (fun row => if (row =? 0)%Z then Some (Vector.mk 1 0) else None)
                 (cell 4 10) = Some (Vector.mk 1 0)).
  rewrite (cell_val 4 10 0) by lra. reflexivity.
Qed.

Lemma flow_sampled_follows_direction_witness :
  mass arrow_agent <> 0
  /\ flowField arrow_agent = Some arrow_field
  /\ exists acc r f,
      applyForces externals (system [arrow_agent]) arrow_agent = Some (acc, r)
      /\ Vector.limit (Vector.sub (Vector.mult (Vector.mk 1 0) (maxSpeed arrow_agent))
                                  (velocity arrow_agent))
                      (maxSteeringForce arrow_agent) = Some f
      /\ entries Flow (applied r) = [f].
Proof.
  split; [exact arrow_agent_mass|]. split; [reflexivity|].
  exact (flow_sampled_follows_direction externals (system [arrow_agent])
           arrow_agent arrow_field _ (Vector.mk 1 0)
           arrow_agent_mass eq_refl arrow_agent_column arrow_agent_sample).
Defined.

Lemma flat_agent_mass : mass flat_agent <> 0.
Proof. change (1 <> 0). lra. Qed.

Lemma flow_zero_resolution_skipped_witness :
  mass flat_agent <> 0
  /\ flowField flat_agent = Some flat_field
  /\ FlowField.resolution flat_field = 0
  /\ exists acc r,
      applyForces externals (system [flat_agent]) flat_agent = Some (acc, r)
      /\ entries Flow (applied r) = [].
Proof.
  split; [exact flat_agent_mass|]. split; [reflexivity|]. split; [reflexivity|].
  exact (flow_zero_resolution_skipped externals (system [flat_agent])
           flat_agent flat_field flat_agent_mass eq_refl eq_refl).
Defined.

Lemma resting_motor_agent_mass : mass resting_motor_agent <> 0.
Proof. change (1 <> 0). lra. Qed.

Lemma resting_motor_agent_speed : motorSpeed resting_motor_agent <> 0.
Proof. change (2 <> 0). lra. Qed.

Lemma motor_at_rest_applies_zero_witness :
  mass resting_motor_agent <> 0 /\ motorSpeed resting_motor_agent <> 0
  /\ anySensorActivated resting_motor_agent = false
  /\ velocity resting_motor_agent = Vector.zero
  /\ exists acc r,
      applyForces externals (system [resting_motor_agent]) resting_motor_agent
      = Some (acc, r)
      /\ entries Motor (applied r) = [Vector.zero].
Proof.
  split; [exact resting_motor_agent_mass|].
  split; [exact resting_motor_agent_speed|].
  split; [reflexivity|]. split; [reflexivity|].
  exact (motor_at_rest_applies_zero externals (system [resting_motor_agent])
           resting_motor_agent resting_motor_agent_mass resting_motor_agent_speed
           eq_refl eq_refl).
Defined.

Lemma motor_agent_moving : Vector.mag (velocity motor_agent) <> 0.
Proof.
  change (Vector.mag (Vector.mk 3 4) <> 0). rewrite (mag_mk 3 4 5); lra.
Qed.

Lemma motor_force_magnitude_witness :
  mass motor_agent <> 0 /\ motorSpeed motor_agent <> 0
  /\ anySensorActivated motor_agent = false
  /\ Vector.mag (velocity motor_agent) <> 0
  /\ exists acc r f,
      applyForces externals (system [motor_agent]) motor_agent = Some (acc, r)
      /\ entries Motor (applied r) = [f]
      /\ Vector.mag f = Rabs (motorSpeed motor_agent).
Proof.
  split; [exact motor_agent_mass|]. split; [exact motor_agent_speed|].
  split; [reflexivity|]. split; [exact motor_agent_moving|].
  exact (motor_force_magnitude externals (system [motor_agent]) motor_agent
           motor_agent_mass motor_agent_speed eq_refl motor_agent_moving).
Defined.

Lemma applyForces_again_same_steering_witness :
  mass flock_a <> 0
  /\ exists acc1 r1 acc2 r2,
      applyForces externals (system [flock_a; flock_b]) flock_a = Some (acc1, r1)
      /\ applyForces externals (system [flock_a; flock_b]) (self r1) = Some (acc2, r2)
      /\ entries Separate (applied r2) = entries Separate (applied r1).
Proof.
  split; [exact flock_a_mass|].
  destruct (applyForces_again_same_steering externals (system [flock_a; flock_b])
              flock_a flock_a_mass)
    as (acc1 & r1 & acc2 & r2 & EQ1 & EQ2 & S).
  exists acc1, r1, acc2, r2. split; [exact EQ1|]. split; [exact EQ2|].
  apply S. simpl. lia.
Defined.

Lemma addColor_getColor_roundtrip_witness :
  accept_all heat = true
  /\ ColorTable.getColor (ColorTable.addColor accept_all no_colors heat)
                         (ColorTable.Str "heat") false false
     = ColorTable.Range (Some [255; 132; 86]) (Some [175; 47; 0]).
Proof.
  split; [reflexivity|].
  exact (proj1 (ColorTableFacts.addColor_getColor_roundtrip
                  accept_all no_colors heat eq_refl)).
Defined.

Lemma addColor_other_names_witness :
  ("cold" <> ColorTable.name heat /\ ColorTable.name heat <> "__proto__")
  /\ ColorTable.getColor (ColorTable.addColor accept_all no_colors heat)
                         (ColorTable.Str "cold") false false
     = ColorTable.getColor no_colors (ColorTable.Str "cold") false false.
Proof.
  assert ("cold" <> ColorTable.name heat /\ ColorTable.name heat <> "__proto__") as H
      by (split; discriminate).
  split; [exact H|].
  exact (ColorTableFacts.addColor_other_names accept_all no_colors heat "cold"
           false false (or_introl H)).
Defined.

Lemma getColor_missing_throws_witness :
  no_colors "heat" = None
  /\ ColorTable.getColor no_colors (ColorTable.Str "heat") false false
     = ColorTable.Throw
         "ColorTable: heat does not exist. Add colors to the ColorTable via addColor().".
Proof.
  split; [reflexivity|].
  exact (proj1 (ColorTableFacts.getColor_missing_throws no_colors "heat"
                  false false eq_refl)).
Defined.

Lemma getColor_inherited_property_witness :
  (fun n => if String.eqb n "name" then Some ColorTable.Inherited else None) "name"
  = Some ColorTable.Inherited
  /\ ColorTable.getColor
       (fun n => if String.eqb n "name" then Some ColorTable.Inherited else None)
       (ColorTable.Str "name") true false
     = ColorTable.Range None None.
Proof.
  split; [reflexivity|].
  exact (ColorTableFacts.getColor_inherited_property
           (fun n => if String.eqb n "name" then Some ColorTable.Inherited else None)
           "name" true false eq_refl).
Defined.

Lemma body_world_size : World.width body_world <> 0 /\ World.height body_world <> 0.
Proof. change (800 <> 0 /\ 600 <> 0). lra. Qed.

Lemma resize_scales_locations_witness :
  existsb World.controlCamera camera_centre = true
  /\ World.resize body_world camera_centre 1024 768 = Some (body_world, camera_centre)
  /\ existsb World.controlCamera centre = false
  /\ World.width body_world <> 0 /\ World.height body_world <> 0
  /\ World.resize body_world centre 1024 768
     = Some (World.mk 1024 768 true,
             [World.mkElement (Vector.mk (1024 * (400 / 800)) (768 * (300 / 600)))
                              false]).
Proof.
  split; [reflexivity|].
  split; [exact (proj1 (WorldFacts.resize_scales_locations
                          body_world camera_centre 1024 768) eq_refl)|].
  split; [reflexivity|].
  split; [exact (proj1 body_world_size)|]. split; [exact (proj2 body_world_size)|].
  exact (proj2 (WorldFacts.resize_scales_locations body_world centre 1024 768)
           eq_refl (proj1 body_world_size) (proj2 body_world_size)).
Defined.

End GalleryFacts.

(** ** The busy run *)

Module BusyFacts.
Import Agent Contributions Layout Busy.
Import VectorFacts SteeringFacts RunFacts LogFacts ApplyForcesFacts BehaviourFacts.

Lemma per_item_tags {I : Type} (a : t) (b : Behavior)
      (keep : t -> I -> bool) (force : t -> I -> Vector.t)
      (items : list I) (ext : list (Behavior * Vector.t)) :
  (forall this item, frame a this -> keep this item = keep a item) ->
  per_item a b keep force items ext ->
  map fst ext = map (fun _ => b) (filter (keep a) items).
Proof.
  intros Hk H.
  induction H as [|this item rest ext F K _ IH|this item rest ext F K _ IH]; simpl.
  - reflexivity.
  - rewrite <- (Hk this item F), K. simpl. rewrite IH. reflexivity.
  - rewrite <- (Hk this item F), K. exact IH.
Qed.

Lemma busy_inside_frame (a this : t) (item : string) :
  frame a this -> other_inside externals this item = other_inside externals a item.
Proof. intros (acc & sens & -> & _). reflexivity. Qed.

Lemma sensor_activated_frame (a this : t) (p : nat * Sensor.t) :
  frame a this -> sensor_activated this p = sensor_activated a p.
Proof. reflexivity. Qed.

Lemma tags_one (b : Behavior) (force : option Vector.t) (f : Vector.t) :
  force = Some f -> map fst (one b force) = [b].
Proof. intros ->. reflexivity. Qed.

Lemma busy_agent_mass : mass busy_agent <> 0.
Proof. change (1 <> 0). lra. Qed.

Lemma busy_motor : Direct.motor_direct busy_agent = [].
Proof. reflexivity. Qed.

Lemma busy_pointer_tags : map fst (pointer_log busy_system busy_agent) = [Pointer].
Proof.
  destruct (_seek_total busy_agent (Target.mk (Vector.mk 7 7))) as [f Ef].
  exact (tags_one Pointer _ f Ef).
Qed.

Lemma busy_seek_tags : map fst (seek_log busy_agent) = [Seek].
Proof.
  destruct (_seek_total busy_agent (Target.mk (Vector.mk 10 0))) as [f Ef].
  exact (tags_one Seek _ f Ef).
Qed.

Lemma busy_flow_tags : map fst (Direct.flow_direct busy_agent) = [Flow].
Proof.
  assert (Int_part (3 / 10) = 0%Z) as I3
      by (symmetry; apply Int_part_spec; simpl; lra).
  assert (Int_part (4 / 10) = 0%Z) as I4
      by (symmetry; apply Int_part_spec; simpl; lra).
  destruct (follow_total busy_agent (Target.mk (Vector.mk 1 0))) as [f Ef].
  unfold Direct.flow_direct.
  change (flowField busy_agent) with (Some Gallery.arrow_field). cbv beta iota.
  change (FlowField.resolution Gallery.arrow_field) with 10.
  change (Vector.x (location busy_agent)) with 3.
  change (Vector.y (location busy_agent)) with 4.
  destruct (Req_dec_T 10 0) as [Z|_]; [lra|].
  rewrite I3, I4.
  change (FlowField.field Gallery.arrow_field 0) with
    (Some (fun row : Z => if (row =? 0)%Z then Some (Vector.mk 1 0) else None)).
  cbv beta iota. change (0 =? 0)%Z with true. cbv beta iota.
  exact (tags_one Flow _ f Ef).
Qed.

Lemma busy_flock_tags :
  map fst (flock_log busy_system busy_agent) = [Separate; Align; Cohesion].
Proof.
  unfold flock_log.
  change (flocking busy_agent) with true. cbv beta iota.
  destruct (separate_total busy_agent (allAgents busy_system)) as [f1 ->].
  destruct (align_total busy_agent (allAgents busy_system)) as [f2 ->].
  destruct (cohesion_total busy_agent (allAgents busy_system)) as [f3 ->].
  reflexivity.
Qed.

Lemma applyForces_order_and_sum_witness :
  mass busy_agent <> 0
  /\ exists acc r,
      applyForces externals busy_system busy_agent = Some (acc, r)
      /\ map fst (applied r)
         = [Drag; Attract; Repel; SensorForce; Pointer; Seek; Flow;
            Separate; Align; Cohesion]
      /\ ordered (applied r)
      /\ entries Motor (applied r) = []
      /\ acceleration (self r)
         = accumulate (mass busy_agent) (acceleration busy_agent) (applied r)
      /\ acc = acceleration (self r).
Proof.
  split; [exact busy_agent_mass|].
  destruct (applyForces_order_and_sum externals busy_system busy_agent busy_agent_mass)
    as (acc & r & Ld & La & Lr & Ls & EQ & D & O & S & A & R).
  exists acc, r. split; [exact EQ|]. split.
  - destruct D as (L & Pd & Pa & Pr & Ps).
    rewrite L, !map_app.
    rewrite (per_item_tags _ _ _ _ _ _ (busy_inside_frame busy_agent) Pd),
      (per_item_tags _ _ _ _ _ _ (other_frame externals busy_agent) Pa),
      (per_item_tags _ _ _ _ _ _ (other_frame externals busy_agent) Pr),
      (per_item_tags _ _ _ _ _ _ (sensor_activated_frame busy_agent) Ps).
    rewrite busy_motor, busy_pointer_tags, busy_seek_tags, busy_flow_tags,
      busy_flock_tags.
    reflexivity.
  - split; [exact O|]. split; [apply S; reflexivity|]. split; assumption.
Defined.

Lemma point_sources_exclude_self_witness :
  mass busy_agent <> 0
  /\ Direct.cache_items (caches_Attractor busy_system) = ["Agent1"; "Attractor1"]
  /\ id busy_agent = "Agent1"
  /\ exists acc r,
      applyForces externals busy_system busy_agent = Some (acc, r)
      /\ List.length (entries Attract (applied r)) = 1%nat
      /\ List.length (entries Repel (applied r)) = 1%nat.
Proof.
  split; [exact busy_agent_mass|]. split; [reflexivity|]. split; [reflexivity|].
  exact (point_sources_exclude_self externals busy_system busy_agent busy_agent_mass).
Defined.

End BusyFacts.
